(** * YAHOO.util.Selectable: explorer-like selection for the children of an element

    A shallow embedding of [src/selectable/selectable.js].  The page (DOM),
    the singleton overlay and the two objects that live on prototypes
    ([Selectable.prototype.selected] and [Selectable.Overlay.prototype.cache])
    form the environment [Env]; the fields an instance owns form the record
    [Selectable].  A method of the controller transforms the pair of both. *)

From stdpp Require Import base list gmap strings.
From Stdlib Require Import ZArith Lia.

(** A DOM element.  Every element the utility handles has an id (the cache
    stores [el.id || Dom.generateId(el)], and [Dom.get(id)] maps the id back),
    so an element is named by its id. *)
Abbreviation Item := string.

(** ** YAHOO.util.Region *)

Module Region.

Record t := mk { top : Z; right : Z; bottom : Z; left : Z }.

(** The rectangle written [[x, y, width, height]]. *)
Definition of_xywh (x y w h : Z) : t :=
  {| top := y; right := x + w; bottom := y + h; left := x |}.

(** Modelled from the spec: [YAHOO.util.Region.prototype.contains] is part of
    the YUI library, which is not in the repository.  [contains outer inner]
    is [outer.contains(inner)]: [inner] lies entirely within [outer], edges
    inclusive. *)
Definition contains (outer inner : t) : bool :=
  (left outer <=? left inner)%Z && (right inner <=? right outer)%Z &&
  (top outer <=? top inner)%Z && (bottom inner <=? bottom outer)%Z.

(** Modelled from the spec: [YAHOO.util.Region.prototype.intersect] is part
    of the YUI library, which is not in the repository.  [intersect a b] is
    [a.intersect(b)]: the common rectangle, edges inclusive, or [null]. *)
Definition intersect (a b : t) : option t :=
  let t' := Z.max (top a) (top b) in
  let r := Z.min (right a) (right b) in
  let b' := Z.min (bottom a) (bottom b) in
  let l := Z.max (left a) (left b) in
  if (t' <=? b')%Z && (l <=? r)%Z
  then Some {| top := t'; right := r; bottom := b'; left := l |}
  else None.

(** [intersects a b]: the two rectangles share a point. *)
Definition intersects (a b : t) : bool := bool_decide (is_Some (intersect a b)).

End Region.

(** ** The page *)

(** What the utility reads from and writes to the document: the element
    children of a node ([Dom.getChildren]), the region of a node
    ([Dom.getRegion]), the class names the nodes carry ([Dom.hasClass],
    [Dom.addClass], [Dom.removeClass]) and the focused node. *)
Inductive Node := ItemNode (el : Item) | OverlayNode.

Record Dom := mkDom {
  children : Item → list Item;
  region_of : Item → Region.t;
  classes : gset (Item * string);
  focused : option Node
}.

(** The overlay's [div]: where [Dom.setXY] put it, the [width] and [height]
    styles (in pixels), and whether it carries the class [ui-hidden]. *)
Record OverlayElement := mkOverlayElement {
  xy : Z * Z;
  width : Z;
  height : Z;
  hidden : bool
}.

(** ** The shared environment *)

Record Env := mkEnv {
  dom : Dom;
  (** [Selectable._overlay.element]; [Selectable.getOverlay] hands the same
      overlay to every instance. *)
  _overlay : OverlayElement;
  (** [Selectable.Overlay.prototype.cache], an object used as a map from ids
      to regions; the list keeps the keys in the order they were first
      assigned, which is the order [for (var id in this.cache)] visits them
      (ids that read as array indices, which the loop would visit first, are
      left aside: no property below depends on the order). *)
  cache : list (Item * Region.t);
  (** [Selectable.prototype.selected], the array every instance reads through
      [this.selected] until it assigns the property itself. *)
  prototype_selected : list Item;
  (** The keys of [Selectable.instances]: the id of each registered
      instance's element, in order of registration. *)
  instances : list Item
}.

Definition set_dom (f : Dom → Dom) (e : Env) : Env :=
  mkEnv (f (dom e)) (_overlay e) (cache e) (prototype_selected e) (instances e).
Definition set_overlay (f : OverlayElement → OverlayElement) (e : Env) : Env :=
  mkEnv (dom e) (f (_overlay e)) (cache e) (prototype_selected e) (instances e).
Definition set_cache (f : list (Item * Region.t) → list (Item * Region.t)) (e : Env) : Env :=
  mkEnv (dom e) (_overlay e) (f (cache e)) (prototype_selected e) (instances e).
Definition set_prototype_selected (f : list Item → list Item) (e : Env) : Env :=
  mkEnv (dom e) (_overlay e) (cache e) (f (prototype_selected e)) (instances e).
Definition set_instances (f : list Item → list Item) (e : Env) : Env :=
  mkEnv (dom e) (_overlay e) (cache e) (prototype_selected e) (f (instances e)).

Definition set_classes (f : gset (Item * string) → gset (Item * string)) (d : Dom) : Dom :=
  mkDom (children d) (region_of d) (f (classes d)) (focused d).
Definition set_focused (n : Node) (d : Dom) : Dom :=
  mkDom (children d) (region_of d) (classes d) (Some n).

(** ** YAHOO.util.Dom *)

Module Dom.

Definition hasClass (el : Item) (className : string) (d : Dom) : bool :=
  bool_decide ((el, className) ∈ classes d).

Definition addClass (el : Item) (className : string) : Dom → Dom :=
  set_classes (λ c, c ∪ {[ (el, className) ]}).

Definition removeClass (el : Item) (className : string) : Dom → Dom :=
  set_classes (λ c, c ∖ {[ (el, className) ]}).

(** [Dom.batch(els, method, o, true)]: [method] is applied to each element of
    the array in turn. *)
Definition batch {S : Type} (els : list Item) (method : Item → S → S) (s : S) : S :=
  foldl (λ s el, method el s) s els.

(** [Dom.getRegion] of the overlay's [div], from its position and size (the
    box is taken to have neither border nor padding). *)
Definition getRegion_overlay (o : OverlayElement) : Region.t :=
  Region.of_xywh (xy o).1 (xy o).2 (width o) (height o).

End Dom.

(** ** Selectable.Overlay *)

Module Overlay.

(** [this.cache[id] = region]: an existing key keeps its place and gets the
    new value, a new key goes to the end. *)
Fixpoint cache_put (id : Item) (region : Region.t) (c : list (Item * Region.t))
  : list (Item * Region.t) :=
  match c with
  | [] => [(id, region)]
  | (k, v) :: c' =>
      if decide (k = id) then (k, region) :: c' else (k, v) :: cache_put id region c'
  end.

Definition _cacheRegion (el : Item) (e : Env) : Env :=
  let region := region_of (dom e) el in
  set_cache (cache_put el region) e.

Definition refreshCache (e : Env) : Env :=
  foldl (λ e k, Dom.batch (children (dom e) k) _cacheRegion e) e (instances e).

Definition inRegion (test selectedRegion : Region.t) : bool :=
  if Region.contains selectedRegion test then true
  else if bool_decide (Region.intersect selectedRegion test ≠ None) then true
  else false.

Fixpoint getContains_loop (region : Region.t) (c : list (Item * Region.t))
    (elements : list Item) : list Item :=
  match c with
  | [] => elements
  | (id, r) :: c' =>
      getContains_loop region c'
        (if inRegion r region then elements ++ [id] else elements)
  end.

(** [Dom.get(id)] finds the element of that id again: the elements named in
    the cache are taken to be in the document still. *)
Definition getContains (e : Env) : list Item :=
  let region := Dom.getRegion_overlay (_overlay e) in
  getContains_loop region (cache e) [].

Definition set_hidden (b : bool) (o : OverlayElement) : OverlayElement :=
  mkOverlayElement (xy o) (width o) (height o) b.

Definition show (e : Env) : Env :=
  set_overlay (set_hidden false) (refreshCache e).

Definition hide (e : Env) : Env :=
  set_overlay (set_hidden true) e.

Definition moveTo (pos : Z * Z) (e : Env) : Env :=
  set_overlay (λ o, mkOverlayElement pos (width o) (height o) (hidden o)) e.

(** [setHeight(height + 'px')] and [setWidth(width + 'px')]: the argument is
    the number of pixels. *)
Definition setHeight (h : Z) (e : Env) : Env :=
  set_overlay (λ o, mkOverlayElement (xy o) (width o) h (hidden o)) e.

Definition setWidth (w : Z) (e : Env) : Env :=
  set_overlay (λ o, mkOverlayElement (xy o) w (height o) (hidden o)) e.

End Overlay.

(** ** YAHOO.util.Selectable *)

(** The fields of one instance.  [selected] is [None] as long as the instance
    has no property of its own and [this.selected] is the prototype's array;
    [overlayShown] is never declared (the prototype declares [usingOverlay],
    which no method reads), so it is [undefined], here [None], until a handler
    assigns it. *)
Record Selectable := mkSelectable {
  element : Item;
  selectClass : string;
  selected : option (list Item);
  lastSelected : option Item;
  mouseDown : bool;
  overlayShown : option bool;
  initXy : Z * Z
}.

(** The state a method runs in: the environment and [this]. *)
Abbreviation St := (Env * Selectable)%type.

Definition set_selected (v : list Item) (s : Selectable) : Selectable :=
  mkSelectable (element s) (selectClass s) (Some v) (lastSelected s) (mouseDown s)
    (overlayShown s) (initXy s).
Definition set_lastSelected (el : Item) (s : Selectable) : Selectable :=
  mkSelectable (element s) (selectClass s) (selected s) (Some el) (mouseDown s)
    (overlayShown s) (initXy s).
Definition set_mouseDown (b : bool) (s : Selectable) : Selectable :=
  mkSelectable (element s) (selectClass s) (selected s) (lastSelected s) b
    (overlayShown s) (initXy s).
Definition set_overlayShown (b : bool) (s : Selectable) : Selectable :=
  mkSelectable (element s) (selectClass s) (selected s) (lastSelected s) (mouseDown s)
    (Some b) (initXy s).
Definition set_initXy (p : Z * Z) (s : Selectable) : Selectable :=
  mkSelectable (element s) (selectClass s) (selected s) (lastSelected s) (mouseDown s)
    (overlayShown s) p.

(** An event as the handlers see it: the chain [target, target.parentNode,
    ...] up to the root of the document, the two modifier keys and the page
    coordinates ([Event.getXY]). *)
Record Event := mkEvent {
  path : list Item;
  ctrlKey : bool;
  shiftKey : bool;
  pageXY : Z * Z
}.

(** An argument of [getElements] and [selectRange]: [Number|HTMLElement]. *)
Inductive Endpoint := Index (n : Z) | Element (el : Item).

Definition CSS_SELECTED : string := "ui-selected".

(** [this.selected], read. *)
Definition this_selected (st : St) : list Item :=
  match selected st.2 with
  | Some own => own
  | None => prototype_selected st.1
  end.

(** [this.selected.push(el)]: the array is changed in place, be it the
    instance's own or the prototype's. *)
Definition this_selected_push (el : Item) (st : St) : St :=
  match selected st.2 with
  | Some own => (st.1, set_selected (own ++ [el]) st.2)
  | None => (set_prototype_selected (λ a, a ++ [el]) st.1, st.2)
  end.

Definition getChildren (st : St) : list Item :=
  children (dom st.1) (element st.2).

(** The inner function of [getElements], counting from [i]. *)
Fixpoint getIndex_from (i : Z) (children : list Item) (el : Item) : Z :=
  match children with
  | [] => -1
  | c :: rest => if decide (c = el) then i else getIndex_from (i + 1) rest el
  end.

Definition getIndex (children : list Item) (el : Item) : Z :=
  getIndex_from 0 children el.

(** [Array.prototype.slice(start, end)] on integers: a negative argument
    counts from the end of the array. *)
Definition slice (a : list Item) (start end_ : Z) : list Item :=
  let len := Z.of_nat (length a) in
  let k := if (start <? 0)%Z then Z.max (len + start) 0 else Z.min start len in
  let final := if (end_ <? 0)%Z then Z.max (len + end_) 0 else Z.min end_ len in
  take (Z.to_nat (final - k)) (drop (Z.to_nat k) a).

(** The two blocks [if (!lang.isNumber(x)) { ... }] of [getElements]: [None]
    stands for the early [return []]. *)
Definition resolve (children : list Item) (x : Endpoint) : option Z :=
  match x with
  | Index n => Some n
  | Element el =>
      let index := getIndex children el in
      if bool_decide (index = (-1)%Z) then None else Some index
  end.

Definition getElements (start end_ : Endpoint) (st : St) : list Item :=
  let children := getChildren st in
  match resolve children start with
  | None => []
  | Some start =>
      match resolve children end_ with
      | None => []
      | Some end_ =>
          let '(start, end_) :=
            if (end_ <? start)%Z then (end_, start) else (start, end_) in
          slice children start (end_ + 1)
      end
  end.

(** [getTarget] on the chain of ancestors of the event's target. *)
Fixpoint getTarget_walk (element : Item) (p : list Item) : option Item :=
  match p with
  | [] => None
  | target :: rest =>
      match rest with
      | [] => None
      | parentNode :: _ =>
          if decide (parentNode = element) then Some target
          else getTarget_walk element rest
      end
  end.

Definition getTarget (evt : Event) (st : St) : option Item :=
  getTarget_walk (element st.2) (path evt).

Definition isSelected (el : Item) (st : St) : bool :=
  Dom.hasClass el (selectClass st.2) (dom st.1).

Definition select (el : Item) (st : St) : bool * St :=
  if isSelected el st then (true, st)
  else
    let st := this_selected_push el st in
    let st := (set_dom (Dom.addClass el (selectClass st.2)) st.1, st.2) in
    let st := (st.1, set_lastSelected el st.2) in
    (true, st).

(** The loop [while (item = els.pop()) { ... }] of [deselect]: [els] is handed
    over last entry first, [acc] is the new [this.selected]. *)
Fixpoint deselect_loop (el : Item) (popped : list Item) (acc : list Item) : list Item :=
  match popped with
  | [] => acc
  | item :: rest =>
      deselect_loop el rest (if decide (item ≠ el) then acc ++ [item] else acc)
  end.

(** [els] is the very array [this.selected] was, so popping it empties the
    prototype's array when the instance had none of its own. *)
Definition deselect (el : Item) (st : St) : bool * St :=
  if negb (isSelected el st) then (false, st)
  else
    let els := this_selected st in
    let e := match selected st.2 with
             | Some _ => st.1
             | None => set_prototype_selected (λ _, []) st.1
             end in
    let this := set_lastSelected el (set_selected [] st.2) in
    let this := set_selected (deselect_loop el (reverse els) []) this in
    let e := set_dom (Dom.removeClass el (selectClass this)) e in
    (true, (e, this)).

Definition selectRange (start finish : Endpoint) (st : St) : St :=
  let elements := getElements start finish st in
  Dom.batch elements (λ el st, (select el st).2) st.

Definition selectAll (st : St) : St :=
  let st := (st.1, set_selected (getChildren st) st.2) in
  (set_dom (Dom.batch (this_selected st) (λ el, Dom.addClass el (selectClass st.2))) st.1,
   st.2).

(** The second statement assigns [this.slected], a property nothing reads:
    [this.selected] keeps its entries. *)
Definition deselectAll (st : St) : St :=
  (set_dom (Dom.batch (this_selected st) (λ el, Dom.removeClass el (selectClass st.2))) st.1,
   st.2).

(** [Event.stopEvent] acts on the event only; [this.get('element').focus()]
    moves the focus. *)
Definition handleClickEvent (evt : Event) (st : St) : St :=
  match getTarget evt st with
  | None => st
  | Some target =>
      let st := if bool_decide (ctrlKey evt = false) then deselectAll st else st in
      match shiftKey evt, lastSelected st.2 with
      | true, Some last =>
          let st := (set_dom (set_focused (ItemNode (element st.2))) st.1, st.2) in
          selectRange (Element last) (Element target) st
      | _, _ =>
          if isSelected target st then (deselect target st).2
          else (select target st).2
      end
  end.

Definition handleMouseDownEvent (evt : Event) (st : St) : St :=
  (st.1, set_initXy (pageXY evt) (set_mouseDown true st.2)).

Definition handleMouseUpEvent (evt : Event) (st : St) : St :=
  let st := (st.1, set_mouseDown false st.2) in
  match overlayShown st.2 with
  | Some true =>
      let elements := Overlay.getContains st.1 in
      let st := if negb (ctrlKey evt) then deselectAll st else st in
      let st := Dom.batch elements (λ el st, (select el st).2) st in
      let st := (Overlay.hide st.1, st.2) in
      (st.1, set_overlayShown false st.2)
  | _ => st
  end.

(** [this.overlayShown == false] is false while the property is
    [undefined]. *)
Definition handleMouseMoveEvent (evt : Event) (st : St) : St :=
  if bool_decide (mouseDown st.2 = false) then st
  else
    let st := if bool_decide (overlayShown st.2 = Some false)
              then (Overlay.show st.1, st.2) else st in
    let st := (st.1, set_overlayShown true st.2) in
    let xy := pageXY evt in
    let initXy := initXy st.2 in
    let width := Z.abs (xy.1 - initXy.1) in
    let height := Z.abs (xy.2 - initXy.2) in
    let pos := (Z.min xy.1 initXy.1, Z.min xy.2 initXy.2) in
    let e := Overlay.moveTo pos st.1 in
    let e := Overlay.setHeight height e in
    let e := Overlay.setWidth width e in
    (set_dom (set_focused OverlayNode) e, st.2).

(** [Selectable.register]: the instance goes into [Selectable.instances] under
    the id of its element; registering an id again keeps its place. *)
Definition register (id : Item) (e : Env) : Env :=
  set_instances (λ l, if bool_decide (id ∈ l) then l else l ++ [id]) e.

(** [new Selectable(el, userConfig)]: [init] registers the instance.
    [initAttributes] gives [selectClass] the value
    [map.selectClass || Selectable.CSS_SELECTED], and [YAHOO.util.Element] then
    sets every attribute the configuration names to the value given there:
    the class is the configured one when there is one, be it the empty
    string, and [CSS_SELECTED] otherwise.  Every other field is still the
    prototype's.  The prototype's [initXy] is an empty array; it is read only
    while [mouseDown] holds, which [handleMouseDownEvent] alone sets, together
    with [initXy]. *)
Definition init (el : Item) (userConfig_selectClass : option string) (e : Env) : St :=
  let selectClass :=
    match userConfig_selectClass with
    | Some c => c
    | None => CSS_SELECTED
    end in
  (register el e, mkSelectable el selectClass None None false None (0, 0)%Z).

(** ** The page with all its controllers *)

(** The environment and the live instances, under the id of their element. *)
Record System := mkSystem {
  env : Env;
  objects : gmap Item Selectable
}.

(** What can happen: a controller is created, one of its public methods is
    called, one of its four listeners receives an event, or the host page
    changes the document.  The listeners for [mouseup] and [mousemove] are on
    the document, so such an event is a step for each instance in turn;
    [click] and [mousedown] reach the instance whose element they happen in.
    A controller created on an element that has one already takes its place
    in the registry; the listeners of the controller it replaces, which the
    page would still call, are not followed any further. *)
Inductive Op :=
| New (el : Item) (userConfig_selectClass : option string)
| Select (k : Item) (el : Item)
| Deselect (k : Item) (el : Item)
| SelectRange (k : Item) (start finish : Endpoint)
| SelectAll (k : Item)
| DeselectAll (k : Item)
| Click (k : Item) (evt : Event)
| MouseDown (k : Item) (evt : Event)
| MouseUp (k : Item) (evt : Event)
| MouseMove (k : Item) (evt : Event)
| Host (d : Dom).

(** A method called on the instance registered under [k]. *)
Definition call (k : Item) (method : St → St) (sys : System) : System :=
  match objects sys !! k with
  | Some this =>
      let st := method (env sys, this) in
      mkSystem st.1 (<[k := st.2]> (objects sys))
  | None => sys
  end.

Definition step (sys : System) (op : Op) : System :=
  match op with
  | New el c =>
      let st := init el c (env sys) in
      mkSystem st.1 (<[el := st.2]> (objects sys))
  | Select k el => call k (λ st, (select el st).2) sys
  | Deselect k el => call k (λ st, (deselect el st).2) sys
  | SelectRange k a b => call k (selectRange a b) sys
  | SelectAll k => call k selectAll sys
  | DeselectAll k => call k deselectAll sys
  | Click k evt => call k (handleClickEvent evt) sys
  | MouseDown k evt => call k (handleMouseDownEvent evt) sys
  | MouseUp k evt => call k (handleMouseUpEvent evt) sys
  | MouseMove k evt => call k (handleMouseMoveEvent evt) sys
  | Host d => mkSystem (set_dom (λ _, d) (env sys)) (objects sys)
  end.

Definition run (ops : list Op) (sys : System) : System := foldl step sys ops.

(** The page before any controller exists: nothing is cached, the
    prototype's array is empty, the overlay has no extent and is visible. *)
Definition initial (d : Dom) : System :=
  mkSystem (mkEnv d (mkOverlayElement (0, 0)%Z 0 0 false) [] [] []) ∅.

(** [this.selected] of the instance registered under [k]. *)
Definition selected_of (k : Item) (sys : System) : list Item :=
  match objects sys !! k with
  | Some this => this_selected (env sys, this)
  | None => []
  end.

(** [this.isSelected(el)] of the instance registered under [k]. *)
Definition isSelected_of (k : Item) (el : Item) (sys : System) : bool :=
  match objects sys !! k with
  | Some this => isSelected el (env sys, this)
  | None => false
  end.

Module Demo.

(** A list [A..E] in the container [list]; the items are 10 by 10 and lie on
    the diagonal, 20 apart.  A second container, [other], holds the single
    item [X], which lies over the corner of [A]. *)
Definition page : Dom :=
  mkDom (λ k, if decide (k = "list") then ["A"; "B"; "C"; "D"; "E"]
              else if decide (k = "other") then ["X"] else [])
        (λ el, if decide (el = "X") then Region.of_xywh 2 2 5 5
               else if decide (el = "A") then Region.of_xywh 0 0 10 10
               else if decide (el = "B") then Region.of_xywh 20 20 10 10
               else if decide (el = "C") then Region.of_xywh 40 40 10 10
               else if decide (el = "D") then Region.of_xywh 60 60 10 10
               else if decide (el = "E") then Region.of_xywh 80 80 10 10
               else Region.of_xywh 0 0 100 100)
        ∅ None.

Definition start : System := step (initial page) (New "list" None).

(** A click on item [el] of the list, with the modifier keys given. *)
Definition click (el : Item) (ctrl shift : bool) : Op :=
  Click "list" (mkEvent [el; "list"; "body"] ctrl shift (0, 0)%Z).

Definition down (x y : Z) : Op := MouseDown "list" (mkEvent ["list"; "body"] false false (x, y)).
Definition move (x y : Z) : Op := MouseMove "list" (mkEvent ["list"; "body"] false false (x, y)).
Definition up (ctrl : bool) : Op := MouseUp "list" (mkEvent ["list"; "body"] ctrl false (0, 0)%Z).

End Demo.

(** ** Notions the properties are stated with *)

(** The batch of [select] calls of [selectRange] and [handleMouseUpEvent]. *)
Abbreviation select_each els st := (Dom.batch els (λ el' st', (select el' st').2) st).

(** The fields of the page and of the instance that no selection method
    writes. *)
Definition same_frame (st st' : St) : Prop :=
  children (dom st'.1) = children (dom st.1) ∧
  region_of (dom st'.1) = region_of (dom st.1) ∧
  _overlay st'.1 = _overlay st.1 ∧
  cache st'.1 = cache st.1 ∧
  instances st'.1 = instances st.1 ∧
  element st'.2 = element st.2 ∧
  selectClass st'.2 = selectClass st.2 ∧
  mouseDown st'.2 = mouseDown st.2 ∧
  overlayShown st'.2 = overlayShown st.2 ∧
  initXy st'.2 = initXy st.2.

(** [id] is a key of the cache. *)
Definition cached (id : Item) (e : Env) : Prop := id ∈ (cache e).*1.

(** [selectRange] as the specification words it: the children whose index
    lies between the smaller and the larger of the two indices, both
    included. *)
Fixpoint indices_between (lo hi : Z) (i : Z) (ch : list Item) : list Item :=
  match ch with
  | [] => []
  | c :: rest =>
      (if bool_decide (lo ≤ i ≤ hi)%Z then [c] else []) ++
      indices_between lo hi (i + 1) rest
  end.

Definition inclusive_range (ch : list Item) (ia ib : Z) : list Item :=
  indices_between (Z.min ia ib) (Z.max ia ib) 0 ch.



(** The instance and the method an operation runs; none for the creation of
    a controller and for a change of the page. *)
Definition method_of (op : Op) : option (Item * (St → St)) :=
  match op with
  | New _ _ | Host _ => None
  | Select k el => Some (k, λ st, (select el st).2)
  | Deselect k el => Some (k, λ st, (deselect el st).2)
  | SelectRange k a b => Some (k, selectRange a b)
  | SelectAll k => Some (k, selectAll)
  | DeselectAll k => Some (k, deselectAll)
  | Click k evt => Some (k, handleClickEvent evt)
  | MouseDown k evt => Some (k, handleMouseDownEvent evt)
  | MouseUp k evt => Some (k, handleMouseUpEvent evt)
  | MouseMove k evt => Some (k, handleMouseMoveEvent evt)
  end.

Arguments Dom.batch : simpl never.

(** Closes [x ∉ [a; b; ...]] for distinct literals. *)
Ltac not_in_list :=
  let H := fresh "H" in
  intros H;
  repeat (apply elem_of_cons in H as [H|H]; [discriminate H|]);
  by apply elem_of_nil in H.

Import Demo.

(** * Properties *)

(** ** Regions *)

Lemma intersect_comm (a b : Region.t) : Region.intersect a b = Region.intersect b a.
Proof.
  unfold Region.intersect.
  by rewrite (Z.max_comm (Region.top a)), (Z.min_comm (Region.right a)),
    (Z.min_comm (Region.bottom a)), (Z.max_comm (Region.left a)).
Qed.

Lemma intersects_comm (a b : Region.t) : Region.intersects a b = Region.intersects b a.
Proof. unfold Region.intersects. by rewrite intersect_comm. Qed.

Lemma inRegion_alt (test selectedRegion : Region.t) :
  Overlay.inRegion test selectedRegion =
  Region.contains selectedRegion test || Region.intersects test selectedRegion.
Proof.
  unfold Overlay.inRegion, Region.intersects.
  rewrite (intersect_comm test selectedRegion).
  destruct (Region.contains selectedRegion test); [done|].
  destruct (Region.intersect selectedRegion test) as [r|].
  - rewrite !bool_decide_eq_true_2; [done| |done]. by exists r.
  - rewrite !bool_decide_eq_false_2; [done| |by intros H; apply H].
    by intros [r Hr].
Qed.

(** ** The cache *)

Lemma getContains_loop_elem region c acc id :
  id ∈ Overlay.getContains_loop region c acc ↔
  id ∈ acc ∨ ∃ r, (id, r) ∈ c ∧ Overlay.inRegion r region = true.
Proof.
  revert acc. induction c as [|[k v] c IH]; intros acc; simpl.
  - split; [by left|]. intros [H|(r & H & _)]; [done|]. by apply elem_of_nil in H.
  - rewrite IH. split.
    + intros [H|(r & H & Hr)].
      * destruct (Overlay.inRegion v region) eqn:Hv; [|by left].
        apply elem_of_app in H as [H|H]; [by left|].
        apply list_elem_of_singleton in H as ->.
        right. exists v. split; [left|done].
      * right. exists r. split; [by right|done].
    + intros [H|(r & H & Hr)].
      * left. destruct (Overlay.inRegion v region); [|done].
        apply elem_of_app. by left.
      * apply elem_of_cons in H as [H|H].
        -- injection H as -> ->. left. rewrite Hr.
           apply elem_of_app. right. by left.
        -- right. by exists r.
Qed.

Lemma getContains_elem (e : Env) (id : Item) :
  id ∈ Overlay.getContains e ↔
  ∃ r, (id, r) ∈ cache e ∧
       Overlay.inRegion r (Dom.getRegion_overlay (_overlay e)) = true.
Proof.
  unfold Overlay.getContains. rewrite getContains_loop_elem.
  split; [|by right]. intros [H|H]; [|done]. by apply elem_of_nil in H.
Qed.

(** ** C7 *)

(** C7: the test that decides membership of the lasso is
    [overlaps(a, b) = contains(b, a) OR intersects(a, b)], and [getContains]
    returns an element exactly when its cached region [a] and the region [b]
    of the overlay pass it. *)
Theorem inRegion_is_overlaps :
  (∀ a b : Region.t,
     Overlay.inRegion a b = Region.contains b a || Region.intersects a b) ∧
  (∀ (e : Env) (id : Item),
     id ∈ Overlay.getContains e ↔
     ∃ a, (id, a) ∈ cache e ∧
          let b := Dom.getRegion_overlay (_overlay e) in
          Region.contains b a = true ∨ Region.intersects a b = true).
Proof.
  split; [apply inRegion_alt|].
  intros e id. rewrite getContains_elem.
  split; intros (a & Hin & H); exists a; (split; [done|]); simpl in *.
  - rewrite inRegion_alt in H. by apply orb_true_iff in H.
  - rewrite inRegion_alt. by apply orb_true_iff.
Qed.

(** ** What the methods leave alone *)

Lemma batch_cons {S : Type} (el : Item) (els : list Item) (m : Item → S → S) (s : S) :
  Dom.batch (el :: els) m s = Dom.batch els m (m el s).
Proof. done. Qed.

Lemma batch_classes (f : Item → gset (Item * string) → gset (Item * string))
    (els : list Item) (d : Dom) :
  Dom.batch els (λ el, set_classes (f el)) d =
  set_classes (λ c, foldl (λ c el, f el c) c els) d.
Proof.
  revert d. induction els as [|el els IH]; intros d.
  - by destruct d.
  - rewrite batch_cons, IH. by destruct d.
Qed.

Lemma batch_addClass (c : string) (els : list Item) (d : Dom) :
  Dom.batch els (λ el, Dom.addClass el c) d =
  set_classes (λ cl, foldl (λ cl el, cl ∪ {[ (el, c) ]}) cl els) d.
Proof. apply (batch_classes (λ el cl, cl ∪ {[ (el, c) ]})). Qed.

Lemma batch_removeClass (c : string) (els : list Item) (d : Dom) :
  Dom.batch els (λ el, Dom.removeClass el c) d =
  set_classes (λ cl, foldl (λ cl el, cl ∖ {[ (el, c) ]}) cl els) d.
Proof. apply (batch_classes (λ el cl, cl ∖ {[ (el, c) ]})). Qed.

Lemma classes_batch_addClass (c : string) (els : list Item) (d : Dom) (p : Item * string) :
  p ∈ classes (Dom.batch els (λ el, Dom.addClass el c) d) ↔
  p ∈ classes d ∨ ∃ el, el ∈ els ∧ p = (el, c).
Proof.
  rewrite batch_addClass. simpl.
  generalize (classes d) as cl.
  induction els as [|el els IH]; intros cl; simpl.
  - split; [by left|]. intros [H|(el & H & _)]; [done|]. by apply elem_of_nil in H.
  - rewrite IH, elem_of_union, elem_of_singleton. split.
    + intros [[H|H]|(el' & H & Hp)]; [by left| |].
      * right. exists el. split; [left|done].
      * right. exists el'. split; [by right|done].
    + intros [H|(el' & H & Hp)]; [by left; left|].
      apply elem_of_cons in H as [->|H]; [by left; right|].
      right. by exists el'.
Qed.

Lemma classes_batch_removeClass (c : string) (els : list Item) (d : Dom) (p : Item * string) :
  p ∈ classes (Dom.batch els (λ el, Dom.removeClass el c) d) ↔
  p ∈ classes d ∧ ¬ ∃ el, el ∈ els ∧ p = (el, c).
Proof.
  rewrite batch_removeClass. simpl.
  generalize (classes d) as cl.
  induction els as [|el els IH]; intros cl; simpl.
  - split; [|by intros [H _]]. intros H. split; [done|].
    intros (el & Hel & _). by apply elem_of_nil in Hel.
  - rewrite IH, elem_of_difference, elem_of_singleton. split.
    + intros [[H Hne] Hn]. split; [done|]. intros (el' & Hel & Hp).
      apply elem_of_cons in Hel as [->|Hel]; [done|]. apply Hn. by exists el'.
    + intros [H Hn]. split; [split; [done|]|].
      * intros ->. apply Hn. exists el. split; [left|done].
      * intros (el' & Hel & Hp). apply Hn. exists el'. split; [by right|done].
Qed.

Lemma same_frame_refl (st : St) : same_frame st st.
Proof. by repeat split. Qed.

Lemma same_frame_trans (st1 st2 st3 : St) :
  same_frame st1 st2 → same_frame st2 st3 → same_frame st1 st3.
Proof.
  unfold same_frame. intros H1 H2.
  destruct H1 as (?&?&?&?&?&?&?&?&?&?), H2 as (?&?&?&?&?&?&?&?&?&?).
  repeat split; congruence.
Qed.

Lemma select_frame (el : Item) (st : St) : same_frame st (select el st).2.
Proof.
  unfold select. destruct (isSelected el st); [apply same_frame_refl|].
  unfold this_selected_push. destruct st as [e s]. simpl.
  by destruct (selected s) eqn:Hs; simpl; rewrite ?Hs; repeat split.
Qed.

Lemma deselect_frame (el : Item) (st : St) : same_frame st (deselect el st).2.
Proof.
  unfold deselect. destruct (isSelected el st); [|apply same_frame_refl].
  destruct st as [e s]. simpl.
  by destruct (selected s); repeat split.
Qed.

Lemma select_each_frame (els : list Item) (st : St) : same_frame st (select_each els st).
Proof.
  revert st. induction els as [|el els IH]; intros st; [apply same_frame_refl|].
  rewrite batch_cons. eapply same_frame_trans; [apply select_frame|apply IH].
Qed.

Lemma selectAll_frame (st : St) : same_frame st (selectAll st).
Proof.
  unfold selectAll, same_frame, set_dom. destruct st as [e s]. simpl.
  rewrite batch_addClass. by repeat split.
Qed.

Lemma deselectAll_frame (st : St) : same_frame st (deselectAll st).
Proof.
  unfold deselectAll, same_frame, set_dom. destruct st as [e s]. simpl.
  rewrite batch_removeClass. by repeat split.
Qed.

Lemma selectRange_frame (a b : Endpoint) (st : St) : same_frame st (selectRange a b st).
Proof. apply select_each_frame. Qed.

(** ** What the methods do to the marks and to [this.selected] *)

Lemma isSelected_true (el : Item) (st : St) :
  isSelected el st = true ↔ (el, selectClass st.2) ∈ classes (dom st.1).
Proof. unfold isSelected, Dom.hasClass. apply bool_decide_eq_true. Qed.

Lemma isSelected_false (el : Item) (st : St) :
  isSelected el st = false ↔ (el, selectClass st.2) ∉ classes (dom st.1).
Proof. unfold isSelected, Dom.hasClass. apply bool_decide_eq_false. Qed.

Lemma select_isSelected (el x : Item) (st : St) :
  isSelected x (select el st).2 = true ↔ isSelected x st = true ∨ x = el.
Proof.
  unfold select. destruct (isSelected el st) eqn:Hel.
  - change ((true, st).2) with st. split; [by left|]. by intros [H| ->].
  - cbv zeta. rewrite !isSelected_true. destruct st as [e s].
    unfold this_selected_push. cbn [fst snd].
    destruct (selected s); simpl; rewrite elem_of_union, elem_of_singleton;
      (split; intros [H|H]; [by left|right; congruence|by left|right; congruence]).
Qed.

Lemma select_this_selected (el : Item) (st : St) :
  this_selected (select el st).2 =
  if isSelected el st then this_selected st else this_selected st ++ [el].
Proof.
  unfold select. destruct (isSelected el st); [done|].
  destruct st as [e s]. unfold this_selected_push, this_selected. cbn [fst snd].
  by destruct (selected s) eqn:Hs; simpl; rewrite ?Hs.
Qed.

Lemma select_lastSelected (el : Item) (st : St) :
  lastSelected (select el st).2.2 =
  if isSelected el st then lastSelected st.2 else Some el.
Proof. unfold select. by destruct (isSelected el st). Qed.

Lemma select_each_isSelected (els : list Item) (x : Item) (st : St) :
  isSelected x (select_each els st) = true ↔ isSelected x st = true ∨ x ∈ els.
Proof.
  revert st. induction els as [|el els IH]; intros st.
  - split; [by left|]. intros [H|H]; [done|]. by apply elem_of_nil in H.
  - rewrite batch_cons, IH, select_isSelected, elem_of_cons. tauto.
Qed.

Lemma select_isSelected_false (el x : Item) (st : St) :
  isSelected x (select el st).2 = false ↔ isSelected x st = false ∧ x ≠ el.
Proof.
  rewrite <- !not_true_iff_false, select_isSelected.
  split; [|tauto]. intros H. split; [tauto|]. intros ->. tauto.
Qed.

Lemma select_each_this_selected (els : list Item) (x : Item) (st : St) :
  x ∈ this_selected (select_each els st) ↔
  x ∈ this_selected st ∨ (x ∈ els ∧ isSelected x st = false).
Proof.
  revert st. induction els as [|el els IH]; intros st.
  - split; [by left|]. intros [H|[H _]]; [done|]. by apply elem_of_nil in H.
  - rewrite batch_cons, IH, select_this_selected, elem_of_cons, select_isSelected_false.
    destruct (isSelected el st) eqn:Hel.
    + destruct (decide (x = el)) as [->|Hne]; [|tauto].
      split; (intros [H|H]; [by left|]); [tauto|].
      destruct H as [_ H]. congruence.
    + rewrite elem_of_app, list_elem_of_singleton.
      destruct (decide (x = el)) as [->|Hne]; tauto.
Qed.

Lemma deselectAll_this_selected (st : St) : this_selected (deselectAll st) = this_selected st.
Proof. by destruct st as [e s]. Qed.

Lemma deselectAll_this (st : St) : (deselectAll st).2 = st.2.
Proof. done. Qed.

Lemma deselectAll_isSelected (x : Item) (st : St) :
  isSelected x (deselectAll st) = true ↔ isSelected x st = true ∧ x ∉ this_selected st.
Proof.
  rewrite !isSelected_true. unfold deselectAll, set_dom. simpl.
  rewrite classes_batch_removeClass. split.
  - intros [H Hn]. split; [done|]. intros Hx. apply Hn. by exists x.
  - intros [H Hn]. split; [done|]. intros (el & Hel & Heq). by simplify_eq.
Qed.

Lemma selectAll_this_selected (st : St) : this_selected (selectAll st) = getChildren st.
Proof. done. Qed.

Lemma selectAll_isSelected (x : Item) (st : St) :
  isSelected x (selectAll st) = true ↔ isSelected x st = true ∨ x ∈ getChildren st.
Proof.
  rewrite !isSelected_true. unfold selectAll, set_dom. simpl.
  rewrite classes_batch_addClass. split.
  - intros [H|(el & Hel & Heq)]; [by left|]. simplify_eq. by right.
  - intros [H|H]; [by left|]. right. by exists x.
Qed.

Lemma deselect_loop_filter (el : Item) (popped acc : list Item) :
  deselect_loop el popped acc = acc ++ filter (λ item, item ≠ el) popped.
Proof.
  revert acc. induction popped as [|item rest IH]; intros acc; simpl.
  - by rewrite app_nil_r.
  - rewrite IH, filter_cons. destruct (decide (item ≠ el)); [|done].
    by rewrite <- app_assoc.
Qed.

Lemma deselect_this_selected (el : Item) (st : St) :
  this_selected (deselect el st).2 =
  if isSelected el st then reverse (filter (λ item, item ≠ el) (this_selected st))
  else this_selected st.
Proof.
  unfold deselect. destruct (isSelected el st); simpl; [|done].
  unfold this_selected. simpl. rewrite deselect_loop_filter. simpl.
  by rewrite filter_reverse.
Qed.

Lemma deselect_isSelected (el x : Item) (st : St) :
  isSelected x (deselect el st).2 = true ↔ isSelected x st = true ∧ x ≠ el.
Proof.
  unfold deselect. destruct (isSelected el st) eqn:Hel; simpl.
  - rewrite !isSelected_true. destruct st as [e s]. simpl.
    destruct (selected s); simpl; rewrite elem_of_difference, elem_of_singleton;
      (split; intros [H Hn]; (split; [done|congruence])).
  - split; [|by intros [H _]]. intros H. split; [done|]. intros ->. congruence.
Qed.

(** ** The behaviour on the list [A..E] *)

(** [select] twice is [select] once. *)
Lemma select_idempotent (el : Item) (st : St) :
  (select el (select el st).2).2 = (select el st).2.
Proof.
  assert (isSelected el (select el st).2 = true) as H
    by (apply select_isSelected; by right).
  unfold select at 1. by rewrite H.
Qed.

(** [A] selected, then a ctrl-click on [C], then a ctrl-click on [A]. *)
Example ctrl_click_accumulates :
  selected_of "list" (run [click "A" false false; click "C" true false] start)
    = ["A"; "C"] ∧
  selected_of "list"
    (run [click "A" false false; click "C" true false; click "A" true false] start)
    = ["C"].
Proof. split; by vm_compute. Qed.

(** ** C1 *)

(** C1 (the code falls short of it): [deselectAll] takes the mark off every
    entry of [this.selected] but assigns the empty array to [this.slected], so
    the array keeps its entries.  After [selectAll()] and [deselectAll()] on
    the list [A..E] no item is marked and [selected] is still [A..E]. *)
Theorem deselectAll_keeps_entries :
  let sys := run [SelectAll "list"; DeselectAll "list"] start in
  selected_of "list" sys = ["A"; "B"; "C"; "D"; "E"] ∧
  classes (dom (env sys)) = ∅.
Proof. split; by vm_compute. Qed.

(** The same for every state: the array is as it was, and none of its
    entries is marked any more. *)
Lemma deselectAll_unmarks (st : St) :
  this_selected (deselectAll st) = this_selected st ∧
  ∀ x, x ∈ this_selected st → isSelected x (deselectAll st) = false.
Proof.
  split; [apply deselectAll_this_selected|]. intros x Hx.
  apply not_true_iff_false. rewrite deselectAll_isSelected. tauto.
Qed.

(** ** C3 *)

(** C3 (the code falls short of it): [select] guards the push by the mark, and
    [deselectAll] removes the mark without removing the entry, so selecting an
    item, deselecting all and selecting the item again enters it twice. *)
Theorem selected_gets_duplicates :
  let sys := run [Select "list" "A"; DeselectAll "list"; Select "list" "A"] start in
  selected_of "list" sys = ["A"; "A"] ∧ ¬ NoDup (selected_of "list" sys).
Proof.
  assert (selected_of "list"
    (run [Select "list" "A"; DeselectAll "list"; Select "list" "A"] start)
    = ["A"; "A"]) as E by (by vm_compute).
  cbv zeta. rewrite E. split; [done|]. intros H.
  apply NoDup_cons in H as [H _]. apply H. left.
Qed.

(** ** C2 *)

(** C2, refuted as stated: [A] is the only selected item, and a plain click on
    [A] leaves it marked and in [selected]; the click does not deselect it. *)
Lemma plain_click_on_sole_selected :
  let before := run [click "A" false false] start in
  let after := step before (click "A" false false) in
  (selected_of "list" before = ["A"] ∧
   classes (dom (env before)) = {[ ("A", CSS_SELECTED) ]}) ∧
  selected_of "list" after ≠ [] ∧
  "A" ∈ selected_of "list" after ∧
  isSelected_of "list" "A" after = true.
Proof.
  assert (selected_of "list" (run [click "A" false false; click "A" false false] start)
    = ["A"; "A"]) as E by (by vm_compute).
  cbv zeta. change (step (run [click "A" false false] start) (click "A" false false))
    with (run [click "A" false false; click "A" false false] start).
  rewrite E. repeat split; try by vm_compute. left.
Qed.

(** C2, amended: a plain click (neither modifier held) whose target resolves
    to an item that carries no mark or is an entry of [selected] (an
    unselected item and the sole selected item alike) selects that item:
    afterwards the target carries the mark, is an entry of [selected] and is
    [lastSelected]; the click does not deselect it.  Another item carries the
    mark afterwards only if it was marked without being an entry of
    [selected]; so when every marked item was an entry of [selected], the
    target is afterwards the only item that carries the mark. *)
Theorem plain_click_selects_target (evt : Event) (st : St) (target : Item) :
  getTarget evt st = Some target →
  ctrlKey evt = false →
  shiftKey evt = false →
  (isSelected target st = true → target ∈ this_selected st) →
  let st' := handleClickEvent evt st in
  isSelected target st' = true ∧
  target ∈ this_selected st' ∧
  lastSelected st'.2 = Some target ∧
  (∀ x, x ≠ target →
        (isSelected x st' = true ↔ isSelected x st = true ∧ x ∉ this_selected st)) ∧
  ((∀ x, isSelected x st = true → x ∈ this_selected st) →
   ∀ x, isSelected x st' = true ↔ x = target).
Proof.
  intros Hget Hctrl Hshift Ht. unfold handleClickEvent.
  rewrite Hget, Hctrl, Hshift. simpl.
  assert (isSelected target (deselectAll st) = false) as Hno.
  { apply not_true_iff_false. rewrite deselectAll_isSelected.
    intros [H Hn]. by apply Hn, Ht. }
  rewrite Hno. split; [|split; [|split; [|split]]].
  - apply select_isSelected. by right.
  - rewrite select_this_selected, Hno. apply elem_of_app. right. left.
  - by rewrite select_lastSelected, Hno.
  - intros x Hne. rewrite select_isSelected, deselectAll_isSelected. tauto.
  - intros Hsub x. rewrite select_isSelected, deselectAll_isSelected.
    split; [|by right]. intros [[H Hn]|H]; [|done].
    exfalso. by apply Hn, Hsub.
Qed.

Lemma plain_click_selects_target_witness :
  let st := (select "A" (init "list" None (env (initial page)))).2 in
  let st' := handleClickEvent (mkEvent ["A"; "list"; "body"] false false (0, 0)%Z) st in
  isSelected "A" st' = true ∧
  "A" ∈ this_selected st' ∧
  lastSelected st'.2 = Some "A" ∧
  (∀ x, x ≠ "A" →
        (isSelected x st' = true ↔ isSelected x st = true ∧ x ∉ this_selected st)) ∧
  ((∀ x, isSelected x st = true → x ∈ this_selected st) →
   ∀ x, isSelected x st' = true ↔ x = "A").
Proof.
  apply plain_click_selects_target; [reflexivity|reflexivity|reflexivity|].
  intros _. vm_compute. left.
Defined.

(** The case the amended claim leaves aside: an item that is marked without
    being an entry of [selected].  [list] selects [A]; [other], which reads the
    same array of the prototype, selects and deselects [X] and thereby
    empties that array; [A] keeps its mark, and the plain click on [A] now
    finds it marked and deselects it. *)
Example plain_click_on_marked_non_entry :
  let before := run [New "other" None; Select "list" "A"; Select "other" "X";
                     Deselect "other" "X"] start in
  let after := step before (click "A" false false) in
  selected_of "list" before = [] ∧
  isSelected_of "list" "A" before = true ∧
  isSelected_of "list" "A" after = false.
Proof. repeat split; by vm_compute. Qed.

(** ** C4 *)

Lemma hide_frame (e : Env) :
  dom (Overlay.hide e) = dom e ∧ cache (Overlay.hide e) = cache e ∧
  prototype_selected (Overlay.hide e) = prototype_selected e ∧
  hidden (_overlay (Overlay.hide e)) = true.
Proof. done. Qed.

(** Pointer-up while the overlay is shown, without the ctrl key: the overlay
    is hidden and the drag is over; the marked items are those [getContains]
    returned and those that were marked without being in [selected]; the
    entries of [selected] are the earlier entries and the returned items that
    were not marked. *)
Lemma handleMouseUpEvent_dragging (evt : Event) (st : St) :
  overlayShown st.2 = Some true →
  ctrlKey evt = false →
  let st' := handleMouseUpEvent evt st in
  let elements := Overlay.getContains st.1 in
  (∀ x, isSelected x st' = true ↔
        x ∈ elements ∨ (isSelected x st = true ∧ x ∉ this_selected st)) ∧
  (∀ x, x ∈ this_selected st' ↔
        x ∈ this_selected st ∨ (x ∈ elements ∧ isSelected x st = false)) ∧
  hidden (_overlay st'.1) = true ∧
  overlayShown st'.2 = Some false ∧
  mouseDown st'.2 = false.
Proof.
  intros Hshown Hctrl. unfold handleMouseUpEvent. destruct st as [e s].
  cbn [fst snd] in *. simpl overlayShown. rewrite Hshown, Hctrl. simpl negb. cbv iota zeta.
  cbn [fst snd].
  set (st0 := (e, set_mouseDown false s)).
  assert (∀ x, isSelected x (deselectAll st0) = true ↔
               isSelected x (e, s) = true ∧ x ∉ this_selected (e, s)) as Hmarks
    by (intros x; apply (deselectAll_isSelected x st0)).
  assert (this_selected (deselectAll st0) = this_selected (e, s)) as Hsel by done.
  split; [|split]; [intros x..|].
  3: { repeat split.
       destruct (select_each_frame (Overlay.getContains e) (deselectAll st0))
         as (_&_&_&_&_&_&_&Hd&_). simpl. by rewrite Hd. }
  - change (isSelected x (select_each (Overlay.getContains e) (deselectAll st0)) = true
            ↔ x ∈ Overlay.getContains e
              ∨ isSelected x (e, s) = true ∧ x ∉ this_selected (e, s)).
    rewrite select_each_isSelected, Hmarks. tauto.
  - change (x ∈ this_selected (select_each (Overlay.getContains e) (deselectAll st0))
            ↔ x ∈ this_selected (e, s)
              ∨ x ∈ Overlay.getContains e ∧ isSelected x (e, s) = false).
    rewrite select_each_this_selected, Hsel, <- !not_true_iff_false, Hmarks.
    destruct (decide (x ∈ this_selected (e, s))); tauto.
Qed.

(** C4 (the code falls short of it): the handler calls [deselectAll] before it
    selects the returned items, but [deselectAll] leaves the entries of
    [selected] in place.  [B] is selected by a click; a second drag over
    [[0,0,15,15]] covers [A] alone; after pointer-up [selected] is [[B; A]],
    not [[A]].  The overlay is hidden and the drag is over. *)
Theorem lasso_keeps_earlier_entries :
  let before := run [click "B" false false; down 0 0; move 15 15; up false;
                     down 0 0; move 15 15] start in
  let after := step before (up false) in
  Overlay.getContains (env before) = ["A"] ∧
  (overlayShown <$> objects before !! "list") = Some (Some true) ∧
  selected_of "list" after = ["B"; "A"] ∧
  hidden (_overlay (env after)) = true ∧
  (overlayShown <$> objects after !! "list") = Some (Some false).
Proof. repeat split; by vm_compute. Qed.

(** On a fresh controller [overlayShown] is [undefined], the test
    [this.overlayShown == false] fails and the first drag does not refresh the
    cache: nothing is returned and nothing selected, whatever the rectangle
    covers.  From the second drag on the cache is refreshed: the rectangle
    [[0,0,15,15]] returns [A], the rectangle [[0,0,35,35]] returns [A] and
    [B]. *)
Example first_drag_selects_nothing :
  let before := run [down 0 0; move 15 15] start in
  cache (env before) = [] ∧
  Overlay.getContains (env before) = [] ∧
  selected_of "list" (step before (up false)) = [].
Proof. repeat split; by vm_compute. Qed.

Example lasso_containment :
  let first := [down 0 0; move 15 15; up false] in
  Overlay.getContains (env (run (first ++ [down 0 0; move 15 15]) start)) = ["A"] ∧
  Overlay.getContains (env (run (first ++ [down 35 35; move 0 0]) start)) = ["A"; "B"].
Proof. split; by vm_compute. Qed.

(** ** C8 *)

Lemma _cacheRegion_batch_frame (els : list Item) (e : Env) :
  dom (Dom.batch els Overlay._cacheRegion e) = dom e ∧
  _overlay (Dom.batch els Overlay._cacheRegion e) = _overlay e ∧
  prototype_selected (Dom.batch els Overlay._cacheRegion e) = prototype_selected e ∧
  instances (Dom.batch els Overlay._cacheRegion e) = instances e.
Proof.
  revert e. induction els as [|el els IH]; intros e; [done|].
  rewrite batch_cons. by destruct (IH (Overlay._cacheRegion el e)) as (-> & -> & -> & ->).
Qed.

Lemma refreshCache_fold_frame (ks : list Item) (e : Env) :
  let e' := foldl (λ e k, Dom.batch (children (dom e) k) Overlay._cacheRegion e) e ks in
  dom e' = dom e ∧ _overlay e' = _overlay e ∧
  prototype_selected e' = prototype_selected e ∧ instances e' = instances e.
Proof.
  revert e. induction ks as [|k ks IH]; intros e; [done|].
  simpl. destruct (IH (Dom.batch (children (dom e) k) Overlay._cacheRegion e))
    as (-> & -> & -> & ->).
  apply _cacheRegion_batch_frame.
Qed.

Lemma refreshCache_frame (e : Env) :
  dom (Overlay.refreshCache e) = dom e ∧
  _overlay (Overlay.refreshCache e) = _overlay e ∧
  prototype_selected (Overlay.refreshCache e) = prototype_selected e ∧
  instances (Overlay.refreshCache e) = instances e.
Proof. apply refreshCache_fold_frame. Qed.

(** C8: on pointer-move with the button down the overlay is put at the
    smaller x and the smaller y of the press point and the pointer, and gets
    the absolute differences as width and height; so a drag from [p] to [q]
    and a drag from [q] to [p] give the same rectangle. *)
Theorem drag_rectangle_normalized (evt evt' : Event) (st st' : St) :
  mouseDown st.2 = true →
  mouseDown st'.2 = true →
  initXy st'.2 = pageXY evt →
  pageXY evt' = initXy st.2 →
  let p := initXy st.2 in
  let q := pageXY evt in
  let o := _overlay (handleMouseMoveEvent evt st).1 in
  let o' := _overlay (handleMouseMoveEvent evt' st').1 in
  (xy o = (Z.min p.1 q.1, Z.min p.2 q.2) ∧
   width o = Z.abs (q.1 - p.1) ∧
   height o = Z.abs (q.2 - p.2)) ∧
  Dom.getRegion_overlay o' = Dom.getRegion_overlay o.
Proof.
  intros Hdown Hdown' Hinit Hpage.
  assert (∀ (ev : Event) (s : St), mouseDown s.2 = true →
    let o := _overlay (handleMouseMoveEvent ev s).1 in
    xy o = (Z.min (pageXY ev).1 (initXy s.2).1, Z.min (pageXY ev).2 (initXy s.2).2) ∧
    width o = Z.abs ((pageXY ev).1 - (initXy s.2).1) ∧
    height o = Z.abs ((pageXY ev).2 - (initXy s.2).2)) as Hmove.
  { intros ev [e s] Hd. unfold handleMouseMoveEvent. cbn [fst snd] in *.
    rewrite Hd. by destruct (overlayShown s) as [[]|]. }
  destruct (Hmove evt st Hdown) as (Hxy & Hw & Hh).
  destruct (Hmove evt' st' Hdown') as (Hxy' & Hw' & Hh').
  cbv zeta. split.
  - rewrite Hxy, Hw, Hh. by rewrite (Z.min_comm (initXy st.2).1), (Z.min_comm (initXy st.2).2).
  - unfold Dom.getRegion_overlay. rewrite Hxy, Hw, Hh, Hxy', Hw', Hh', Hinit, Hpage.
    cbn [fst snd].
    rewrite (Z.min_comm (initXy st.2).1), (Z.min_comm (initXy st.2).2).
    f_equal; lia.
Qed.

Lemma drag_rectangle_normalized_witness :
  let st := (env start, mkSelectable "list" CSS_SELECTED None None true None (50, 50)%Z) in
  let st' := (env start, mkSelectable "list" CSS_SELECTED None None true None (10, 10)%Z) in
  let evt := mkEvent ["list"; "body"] false false (10, 10)%Z in
  let evt' := mkEvent ["list"; "body"] false false (50, 50)%Z in
  let o := _overlay (handleMouseMoveEvent evt st).1 in
  let o' := _overlay (handleMouseMoveEvent evt' st').1 in
  (xy o = (10, 10)%Z ∧ width o = 40%Z ∧ height o = 40%Z) ∧
  Dom.getRegion_overlay o' = Dom.getRegion_overlay o.
Proof.
  exact (drag_rectangle_normalized
    (mkEvent ["list"; "body"] false false (10, 10)%Z)
    (mkEvent ["list"; "body"] false false (50, 50)%Z)
    (env start, mkSelectable "list" CSS_SELECTED None None true None (50, 50)%Z)
    (env start, mkSelectable "list" CSS_SELECTED None None true None (10, 10)%Z)
    eq_refl eq_refl eq_refl eq_refl).
Defined.

(** ** Sibling indices *)

Lemma getIndex_from_notin (i : Z) (ch : list Item) (el : Item) :
  el ∉ ch → getIndex_from i ch el = (-1)%Z.
Proof.
  revert i. induction ch as [|c ch IH]; intros i Hn; simpl; [done|].
  apply not_elem_of_cons in Hn as [Hne Hn].
  destruct (decide (c = el)); [congruence|]. by apply IH.
Qed.

Lemma getIndex_from_in (i : Z) (ch : list Item) (el : Item) :
  el ∈ ch →
  (i ≤ getIndex_from i ch el)%Z ∧
  ch !! Z.to_nat (getIndex_from i ch el - i) = Some el.
Proof.
  revert i. induction ch as [|c ch IH]; intros i Hin; simpl.
  - by apply elem_of_nil in Hin.
  - destruct (decide (c = el)) as [->|Hne].
    + split; [lia|]. by replace (i - i)%Z with 0%Z by lia.
    + apply elem_of_cons in Hin as [->|Hin]; [done|].
      destruct (IH (i + 1)%Z Hin) as [Hle Hlk]. split; [lia|].
      replace (Z.to_nat (getIndex_from (i + 1) ch el - i))
        with (S (Z.to_nat (getIndex_from (i + 1) ch el - (i + 1)))) by lia.
      done.
Qed.

(** An element resolves exactly when it is one of the children, and then to
    the index of its first occurrence. *)
Lemma resolve_Element_None (ch : list Item) (el : Item) :
  resolve ch (Element el) = None ↔ el ∉ ch.
Proof.
  unfold resolve, getIndex. split.
  - intros H Hin. destruct (getIndex_from_in 0 ch el Hin) as [Hle _].
    case_bool_decide; [lia|done].
  - intros Hn. rewrite getIndex_from_notin by done. by rewrite bool_decide_eq_true_2.
Qed.

Lemma resolve_Element_Some (ch : list Item) (el : Item) (i : Z) :
  resolve ch (Element el) = Some i → (0 ≤ i)%Z ∧ ch !! Z.to_nat i = Some el.
Proof.
  intros H. destruct (decide (el ∈ ch)) as [Hin|Hn].
  - destruct (getIndex_from_in 0 ch el Hin) as [Hle Hlk].
    unfold resolve, getIndex in H. case_bool_decide; [done|]. simplify_eq.
    split; [done|]. by rewrite Z.sub_0_r in Hlk.
  - apply resolve_Element_None in Hn. congruence.
Qed.

(** ** C6 *)

(** C6, refuted as stated: a number is taken as an index without a check
    that a sibling has it.  [99] and [-10] are the index of none of the five
    children, yet [selectRange(B, 99)] selects [B] to [E] and
    [selectRange(-10, C)] selects [A] to [C]: the side of the other endpoint
    is selected. *)
Lemma selectRange_unchecked_number :
  let st := init "list" None (env (initial page)) in
  getChildren st = ["A"; "B"; "C"; "D"; "E"] ∧
  this_selected st = [] ∧
  this_selected (selectRange (Element "B") (Index 99) st) = ["B"; "C"; "D"; "E"] ∧
  this_selected (selectRange (Index (-10)) (Element "C") st) = ["A"; "B"; "C"] ∧
  selectRange (Element "B") (Index 99) st ≠ st ∧
  selectRange (Index (-10)) (Element "C") st ≠ st.
Proof.
  split; [by vm_compute|]. split; [by vm_compute|].
  split; [by vm_compute|]. split; [by vm_compute|].
  split; intros H; apply (f_equal this_selected) in H; by vm_compute in H.
Qed.

(** C6, amended: when an endpoint of [selectRange] is an element that is not
    among the children, the call changes nothing: neither [selected], nor a
    mark, nor anything else; the other endpoint's side is not selected. *)
Theorem selectRange_unresolved (start finish : Endpoint) (el : Item) (st : St) :
  start = Element el ∨ finish = Element el →
  el ∉ getChildren st →
  selectRange start finish st = st.
Proof.
  intros Hend Hn. apply resolve_Element_None in Hn.
  unfold selectRange, getElements.
  destruct Hend as [-> | ->].
  - by rewrite Hn.
  - rewrite Hn. by destruct (resolve (getChildren st) start).
Qed.

Lemma selectRange_unresolved_witness :
  let st := (select "B" (init "list" None (env (initial page)))).2 in
  selectRange (Element "B") (Element "Z") st = st.
Proof.
  apply (selectRange_unresolved (Element "B") (Element "Z") "Z"); [by right|].
  vm_compute. not_in_list.
Defined.

(** ** C5 *)

Lemma indices_between_elem (lo hi i : Z) (ch : list Item) (x : Item) :
  x ∈ indices_between lo hi i ch ↔
  ∃ n : nat, ch !! n = Some x ∧ (lo ≤ i + Z.of_nat n ≤ hi)%Z.
Proof.
  revert i. induction ch as [|c rest IH]; intros i; simpl.
  - split; [intros H; by apply elem_of_nil in H|]. by intros (n & H & _).
  - rewrite elem_of_app, IH. split.
    + intros [H|(n & Hn & Hr)].
      * case_bool_decide; [|by apply elem_of_nil in H].
        apply list_elem_of_singleton in H as ->. exists 0%nat. split; [done|lia].
      * exists (S n). split; [done|lia].
    + intros ([|n] & Hn & Hr).
      * left. simplify_eq/=. rewrite bool_decide_eq_true_2 by lia. left.
      * right. exists n. split; [done|lia].
Qed.

Lemma inclusive_range_elem (ch : list Item) (ia ib : Z) (x : Item) :
  x ∈ inclusive_range ch ia ib ↔
  ∃ n : nat, ch !! n = Some x ∧ (Z.min ia ib ≤ Z.of_nat n ≤ Z.max ia ib)%Z.
Proof. unfold inclusive_range. by rewrite indices_between_elem. Qed.

Lemma indices_between_take_drop (lo hi i : Z) (ch : list Item) :
  indices_between lo hi i ch =
  take (Z.to_nat (hi + 1 - Z.max lo i)) (drop (Z.to_nat (lo - i)) ch).
Proof.
  revert i. induction ch as [|c rest IH]; intros i; simpl.
  - by rewrite drop_nil, take_nil.
  - rewrite IH. case_bool_decide as Hr.
    + replace (Z.to_nat (lo - i)) with 0%nat by lia.
      replace (Z.to_nat (lo - (i + 1))) with 0%nat by lia.
      replace (Z.to_nat (hi + 1 - Z.max lo i))
        with (S (Z.to_nat (hi + 1 - Z.max lo (i + 1)))) by lia.
      done.
    + destruct (decide (i < lo)%Z).
      * replace (Z.to_nat (lo - i)) with (S (Z.to_nat (lo - (i + 1)))) by lia.
        by replace (Z.max lo (i + 1)) with (Z.max lo i) by lia.
      * replace (Z.to_nat (hi + 1 - Z.max lo i)) with 0%nat by lia.
        by replace (Z.to_nat (hi + 1 - Z.max lo (i + 1))) with 0%nat by lia.
Qed.

Lemma slice_inclusive (ch : list Item) (lo hi : Z) :
  (0 ≤ lo ≤ hi)%Z → slice ch lo (hi + 1) = indices_between lo hi 0 ch.
Proof.
  intros Hr. rewrite indices_between_take_drop. unfold slice.
  rewrite (proj2 (Z.ltb_ge lo 0)), (proj2 (Z.ltb_ge (hi + 1) 0)) by lia.
  rewrite Z.sub_0_r, (Z.max_l lo 0) by lia.
  destruct (decide (Z.of_nat (length ch) ≤ lo)%Z) as [Hge|Hlt].
  - rewrite !drop_ge by lia. by rewrite !take_nil.
  - rewrite (Z.min_l lo) by lia.
    destruct (decide (hi + 1 ≤ Z.of_nat (length ch))%Z).
    + by rewrite Z.min_l by lia.
    + rewrite Z.min_r by lia. rewrite !take_ge; [done| |]; rewrite length_drop; lia.
Qed.

Lemma getElements_inclusive (a b : Endpoint) (st : St) (ia ib : Z) :
  resolve (getChildren st) a = Some ia →
  resolve (getChildren st) b = Some ib →
  (0 ≤ ia)%Z → (0 ≤ ib)%Z →
  getElements a b st = inclusive_range (getChildren st) ia ib.
Proof.
  intros Ha Hb Hia Hib. unfold getElements, inclusive_range. rewrite Ha, Hb.
  destruct (ib <? ia)%Z eqn:Hlt.
  - apply Z.ltb_lt in Hlt. rewrite slice_inclusive by lia.
    by rewrite Z.min_r, Z.max_l by lia.
  - apply Z.ltb_ge in Hlt. rewrite slice_inclusive by lia.
    by rewrite Z.min_l, Z.max_r by lia.
Qed.

(** Why the indices of the theorem below must not be negative: [slice] counts
    a negative number from the end.  [-1] is the index of no sibling; for the
    endpoints [-1] and [2] the children with an index between them would be
    [A], [B] and [C], but [getElements] returns nothing and [selectRange]
    changes nothing. *)
Lemma selectRange_negative_index :
  let st := init "list" None (env (initial page)) in
  getChildren st = ["A"; "B"; "C"; "D"; "E"] ∧
  inclusive_range (getChildren st) (-1) 2 = ["A"; "B"; "C"] ∧
  getElements (Index (-1)) (Index 2) st = [] ∧
  selectRange (Index (-1)) (Index 2) st = st ∧
  getElements (Index (-1)) (Index 2) st ≠ inclusive_range (getChildren st) (-1) 2.
Proof. repeat split; by vm_compute. Qed.

(** C5: for endpoints that resolve to an index that is not negative, so for
    every endpoint that resolves to the index of a sibling (a child of the
    element, or a number a sibling has as its index), [selectRange] selects
    exactly the children whose index lies
    between the two resolved indices, both included, whichever endpoint comes
    first: [getElements] returns them in sibling order, each of them is
    marked afterwards, no other mark changes, and those that were not marked
    become entries of [selected]. *)
Theorem selectRange_inclusive (a b : Endpoint) (st : St) (ia ib : Z) :
  resolve (getChildren st) a = Some ia →
  resolve (getChildren st) b = Some ib →
  (0 ≤ ia)%Z → (0 ≤ ib)%Z →
  let in_range x :=
    ∃ n : nat, getChildren st !! n = Some x ∧
               (Z.min ia ib ≤ Z.of_nat n ≤ Z.max ia ib)%Z in
  let st' := selectRange a b st in
  getElements a b st = inclusive_range (getChildren st) ia ib ∧
  getElements b a st = getElements a b st ∧
  (∀ x, isSelected x st' = true ↔ isSelected x st = true ∨ in_range x) ∧
  (∀ x, x ∈ this_selected st' ↔
        x ∈ this_selected st ∨ (in_range x ∧ isSelected x st = false)).
Proof.
  intros Ha Hb Hia Hib. cbv zeta.
  pose proof (getElements_inclusive a b st ia ib Ha Hb Hia Hib) as Hab.
  pose proof (getElements_inclusive b a st ib ia Hb Ha Hib Hia) as Hba.
  split; [done|]. split.
  - rewrite Hab, Hba. unfold inclusive_range. by rewrite Z.min_comm, Z.max_comm.
  - unfold selectRange. rewrite Hab. split; intros x.
    + by rewrite select_each_isSelected, inclusive_range_elem.
    + by rewrite select_each_this_selected, inclusive_range_elem.
Qed.

Lemma selectRange_inclusive_witness :
  let st := init "list" None (env (initial page)) in
  let in_range x :=
    ∃ n : nat, getChildren st !! n = Some x ∧
               (Z.min 3 1 ≤ Z.of_nat n ≤ Z.max 3 1)%Z in
  let st' := selectRange (Element "D") (Element "B") st in
  getElements (Element "D") (Element "B") st = ["B"; "C"; "D"] ∧
  getElements (Element "B") (Element "D") st = getElements (Element "D") (Element "B") st ∧
  (∀ x, isSelected x st' = true ↔ isSelected x st = true ∨ in_range x) ∧
  (∀ x, x ∈ this_selected st' ↔
        x ∈ this_selected st ∨ (in_range x ∧ isSelected x st = false)).
Proof.
  exact (selectRange_inclusive (Element "D") (Element "B")
    (init "list" None (env (initial page))) 3 1 eq_refl eq_refl
    ltac:(lia) ltac:(lia)).
Defined.

(** The scenario of the specification: [B] is selected by a click and [D] is
    shift-clicked, or the other way round.  Either way the items of [selected]
    and the marked items are [B], [C] and [D]; the anchor is entered a second
    time, because the [deselectAll] of the shift-click took its mark but left
    its entry. *)
Example shift_click_B_then_D :
  let sys := run [click "B" false false; click "D" false true] start in
  selected_of "list" sys = ["B"; "B"; "C"; "D"] ∧
  classes (dom (env sys)) =
    {[ ("B", CSS_SELECTED); ("C", CSS_SELECTED); ("D", CSS_SELECTED) ]}.
Proof. split; by vm_compute. Qed.

Example shift_click_D_then_B :
  let sys := run [click "D" false false; click "B" false true] start in
  selected_of "list" sys = ["D"; "B"; "C"; "D"] ∧
  classes (dom (env sys)) =
    {[ ("B", CSS_SELECTED); ("C", CSS_SELECTED); ("D", CSS_SELECTED) ]}.
Proof. split; by vm_compute. Qed.

(** ** C9 *)

(** C9: [isSelected] tests the class and nothing else: its answer is the same
    whatever the arrays hold, and it can differ from membership in [selected]
    both ways.  After [select(A)] and [deselectAll()], [A] is an entry without
    the mark; after [select(Z)], for a [Z] that is not a child, and
    [selectAll()], [Z] has the mark without being an entry. *)
Theorem isSelected_is_class_test :
  (∀ (el : Item) (st : St),
     isSelected el st = true ↔ (el, selectClass st.2) ∈ classes (dom st.1)) ∧
  (∀ (el : Item) (e : Env) (s : Selectable) (own proto : list Item),
     isSelected el (set_prototype_selected (λ _, proto) e, set_selected own s) =
     isSelected el (e, s)) ∧
  (let sys := run [Select "list" "A"; DeselectAll "list"] start in
   "A" ∈ selected_of "list" sys ∧ isSelected_of "list" "A" sys = false) ∧
  (let sys := run [Select "list" "Z"; SelectAll "list"] start in
   ("Z" ∉ selected_of "list" sys) ∧ isSelected_of "list" "Z" sys = true).
Proof.
  split; [apply isSelected_true|]. split; [done|]. split.
  - assert (selected_of "list" (run [Select "list" "A"; DeselectAll "list"] start)
      = ["A"]) as E by (by vm_compute).
    cbv zeta. rewrite E. split; [left|by vm_compute].
  - assert (selected_of "list" (run [Select "list" "Z"; SelectAll "list"] start)
      = ["A"; "B"; "C"; "D"; "E"]) as E by (by vm_compute).
    cbv zeta. rewrite E. split; [|by vm_compute].
    not_in_list.
Qed.

(** ** C10 *)

Lemma cache_put_keys (id k : Item) (region : Region.t) (c : list (Item * Region.t)) :
  k ∈ (Overlay.cache_put id region c).*1 ↔ k = id ∨ k ∈ c.*1.
Proof.
  induction c as [|[k' v] c IH]; simpl.
  - rewrite list_elem_of_singleton. split; [by left|]. intros [H|H]; [done|].
    by apply elem_of_nil in H.
  - destruct (decide (k' = id)) as [->|Hne]; simpl.
    + rewrite !elem_of_cons. tauto.
    + rewrite !elem_of_cons, IH. tauto.
Qed.

Lemma cache_put_lookup (id : Item) (region : Region.t) (c : list (Item * Region.t)) :
  (id, region) ∈ Overlay.cache_put id region c.
Proof.
  induction c as [|[k' v] c IH]; simpl; [left|].
  destruct (decide (k' = id)) as [->|Hne]; [left|by right].
Qed.

Lemma _cacheRegion_batch_cached (els : list Item) (e : Env) (id : Item) :
  cached id (Dom.batch els Overlay._cacheRegion e) ↔ cached id e ∨ id ∈ els.
Proof.
  revert e. induction els as [|el els IH]; intros e.
  - split; [by left|]. intros [H|H]; [done|]. by apply elem_of_nil in H.
  - rewrite batch_cons, IH. unfold cached at 1, Overlay._cacheRegion. simpl.
    rewrite cache_put_keys, elem_of_cons. unfold cached. tauto.
Qed.

Lemma refreshCache_fold_cached (ks : list Item) (e : Env) (id : Item) :
  cached id e →
  cached id (foldl (λ e k, Dom.batch (children (dom e) k) Overlay._cacheRegion e) e ks).
Proof.
  revert e. induction ks as [|k ks IH]; intros e H; [done|].
  simpl. apply IH, _cacheRegion_batch_cached. by left.
Qed.

Lemma refreshCache_cached (e : Env) (id : Item) :
  cached id e → cached id (Overlay.refreshCache e).
Proof. apply refreshCache_fold_cached. Qed.

Lemma same_frame_cache (st st' : St) : same_frame st st' → cache st'.1 = cache st.1.
Proof. by intros (_&_&_&H&_). Qed.

Lemma handleClickEvent_cache (evt : Event) (st : St) :
  cache (handleClickEvent evt st).1 = cache st.1.
Proof.
  unfold handleClickEvent. destruct (getTarget evt st) as [target|]; [|done].
  set (st1 := if bool_decide (ctrlKey evt = false) then deselectAll st else st).
  assert (cache st1.1 = cache st.1) as <-.
  { unfold st1. case_bool_decide; [|done]. apply same_frame_cache, deselectAll_frame. }
  cbv zeta. destruct (shiftKey evt), (lastSelected st1.2).
  - by rewrite (same_frame_cache _ _ (selectRange_frame _ _ _)).
  - destruct (isSelected target st1);
      [apply same_frame_cache, deselect_frame|apply same_frame_cache, select_frame].
  - destruct (isSelected target st1);
      [apply same_frame_cache, deselect_frame|apply same_frame_cache, select_frame].
  - destruct (isSelected target st1);
      [apply same_frame_cache, deselect_frame|apply same_frame_cache, select_frame].
Qed.

Lemma handleMouseUpEvent_cache (evt : Event) (st : St) :
  cache (handleMouseUpEvent evt st).1 = cache st.1.
Proof.
  unfold handleMouseUpEvent. cbn [fst snd]. simpl overlayShown.
  destruct (overlayShown st.2) as [[]|]; [|done..]. cbv zeta. cbn [fst snd].
  set (st0 := (st.1, set_mouseDown false st.2)).
  set (st1 := if negb (ctrlKey evt) then deselectAll st0 else st0).
  assert (cache st1.1 = cache st.1) as <-.
  { unfold st1. destruct (negb (ctrlKey evt)); [|done].
    apply (same_frame_cache st0), deselectAll_frame. }
  change (cache (select_each (Overlay.getContains st.1) st1).1 = cache st1.1).
  apply same_frame_cache, select_each_frame.
Qed.

Lemma handleMouseMoveEvent_cached (evt : Event) (st : St) (id : Item) :
  cached id st.1 → cached id (handleMouseMoveEvent evt st).1.
Proof.
  intros H. unfold handleMouseMoveEvent. case_bool_decide; [done|].
  case_bool_decide; [|done]. by apply refreshCache_cached.
Qed.

Lemma call_cached (k : Item) (method : St → St) (sys : System) (id : Item) :
  (∀ st, cached id st.1 → cached id (method st).1) →
  cached id (env sys) → cached id (env (call k method sys)).
Proof.
  intros Hm H. unfold call. destruct (objects sys !! k) as [this|]; [|done].
  by apply (Hm (env sys, this)).
Qed.

Lemma same_frame_cached (method : St → St) (id : Item) :
  (∀ st, same_frame st (method st)) →
  ∀ st, cached id st.1 → cached id (method st).1.
Proof. intros Hf st H. unfold cached. by rewrite (same_frame_cache _ _ (Hf st)). Qed.

(** Whatever happens on the page, an id that is in the cache stays in it. *)
Lemma step_cached (sys : System) (op : Op) (id : Item) :
  cached id (env sys) → cached id (env (step sys op)).
Proof.
  destruct op; cbn [step]; try done; apply call_cached.
  - apply same_frame_cached. intros st. apply select_frame.
  - apply same_frame_cached. intros st. apply deselect_frame.
  - apply same_frame_cached. intros st. apply selectRange_frame.
  - apply same_frame_cached, selectAll_frame.
  - apply same_frame_cached, deselectAll_frame.
  - intros st. unfold cached. by rewrite handleClickEvent_cache.
  - done.
  - intros st. unfold cached. by rewrite handleMouseUpEvent_cache.
  - intros st. apply handleMouseMoveEvent_cached.
Qed.

(** C10: the cache is one object for all instances and entries are only added
    or overwritten.  Whatever happens on the page, an id that is cached stays
    cached; [refreshCache], called for one instance, caches the children of
    every registered instance.  So a drag in [list] returns [X], a child of
    [other], and makes it an entry of [selected] of [list]; and after [A] has
    been moved out of [list], a later drag in [list] still returns [A], from
    the region cached during the earlier drag. *)
Theorem cache_only_grows :
  (∀ (sys : System) (op : Op) (id : Item),
     cached id (env sys) → cached id (env (step sys op))) ∧
  (∀ (e : Env) (k el : Item),
     k ∈ instances e → el ∈ children (dom e) k → cached el (Overlay.refreshCache e)) ∧
  (let before := run [New "other" None; down 0 0; move 15 15; up false;
                      down 0 0; move 15 15] start in
   let after := step before (up false) in
   Overlay.getContains (env before) = ["A"; "X"] ∧
   ("X" ∉ children (dom (env before)) "list") ∧
   selected_of "list" after = ["A"; "X"]) ∧
  (let earlier := run [down 0 0; move 15 15; up false;
                       down 0 0; move 15 15; up false] start in
   let moved := mkDom (λ k, if decide (k = "list") then ["B"; "C"; "D"; "E"] else [])
                      (region_of page) (classes (dom (env earlier))) None in
   let later := run [Host moved; down 0 0; move 15 15] earlier in
   cache (env earlier) = cache (env later) ∧
   ("A" ∉ children (dom (env later)) "list") ∧
   Overlay.getContains (env later) = ["A"]).
Proof.
  split; [apply step_cached|]. split; [|split].
  - intros e k el Hk Hel. unfold Overlay.refreshCache.
    assert (∀ ks e', children (dom e') = children (dom e) → k ∈ ks →
      cached el (foldl (λ e k, Dom.batch (children (dom e) k) Overlay._cacheRegion e)
                   e' ks)) as Hfold.
    { induction ks as [|k' ks IH]; intros e' Hch Hin; [by apply elem_of_nil in Hin|].
      simpl. apply elem_of_cons in Hin as [<-|Hin].
      - apply refreshCache_fold_cached, _cacheRegion_batch_cached.
        right. by rewrite Hch.
      - apply IH; [|done].
        by destruct (_cacheRegion_batch_frame (children (dom e') k') e') as [-> _]. }
    by apply Hfold.
  - split; [by vm_compute|]. split; [vm_compute; not_in_list|by vm_compute].
  - split; [by vm_compute|]. split; [vm_compute; not_in_list|by vm_compute].
Qed.

Lemma cache_only_grows_witness :
  let sys := run [down 0 0; move 15 15; up false; down 0 0; move 15 15] start in
  cached "A" (env sys) ∧ cached "A" (env (step sys (up false))).
Proof.
  assert (cached "A" (env (run [down 0 0; move 15 15; up false; down 0 0; move 15 15] start)))
    as H by (vm_compute; left).
  split; [exact H|].
  exact (proj1 cache_only_grows _ (up false) "A" H).
Defined.

(** The prototype's array is the [selected] of every instance that has not
    been given its own: what [list] selects shows in [other] as well. *)
Example prototype_selected_is_shared :
  let sys := run [New "other" None; click "B" false false] start in
  selected_of "list" sys = ["B"] ∧ selected_of "other" sys = ["B"].
Proof. split; by vm_compute. Qed.

(** ** Where the duplicates of C3 come from *)






(** * Further properties of the code *)

(** ** [select] and [deselect] *)

Lemma select_classes (el : Item) (st : St) :
  classes (dom (select el st).2.1) = classes (dom st.1) ∪ {[ (el, selectClass st.2) ]}.
Proof.
  unfold select. destruct (isSelected el st) eqn:Hel.
  - apply isSelected_true in Hel. simpl. apply set_eq. intros p.
    rewrite elem_of_union, elem_of_singleton. split; [by left|].
    by intros [H| ->].
  - destruct st as [e s]. unfold this_selected_push. cbn [fst snd].
    by destruct (selected s).
Qed.

Lemma deselect_classes (el : Item) (st : St) :
  classes (dom (deselect el st).2.1) = classes (dom st.1) ∖ {[ (el, selectClass st.2) ]}.
Proof.
  unfold deselect. destruct (isSelected el st) eqn:Hel.
  - destruct st as [e s]. cbn [fst snd negb]. by destruct (selected s).
  - apply isSelected_false in Hel. simpl. apply set_eq. intros p.
    rewrite elem_of_difference, elem_of_singleton. split; [|by intros [H _]].
    intros H. split; [done|]. by intros ->.
Qed.

Lemma deselect_lastSelected (el : Item) (st : St) :
  lastSelected (deselect el st).2.2 =
  if isSelected el st then Some el else lastSelected st.2.
Proof. unfold deselect. by destruct (isSelected el st). Qed.

(** X1: [select(el)] always answers [true] and leaves [el] marked; it changes
    the mark of no other element, and a second [select(el)] changes nothing
    at all. *)
Theorem select_marks_once (el : Item) (st : St) :
  (select el st).1 = true ∧
  isSelected el (select el st).2 = true ∧
  (∀ x, x ≠ el → isSelected x (select el st).2 = isSelected x st) ∧
  select el (select el st).2 = (true, (select el st).2).
Proof.
  assert (isSelected el (select el st).2 = true) as Hel
    by (apply select_isSelected; by right).
  split; [|split; [done|split]].
  - unfold select. by destruct (isSelected el st).
  - intros x Hne. apply eq_true_iff_eq. rewrite select_isSelected. tauto.
  - unfold select at 1. by rewrite Hel.
Qed.

(** X2: [deselect(el)] on a marked element answers [true], takes the mark
    off [el] and off no other element, makes [el] the last selected, and
    rebuilds [selected] without any entry [el] and in reverse order. *)
Theorem deselect_removes_and_reverses (el : Item) (st : St) :
  isSelected el st = true →
  let st' := (deselect el st).2 in
  (deselect el st).1 = true ∧
  this_selected st' = reverse (filter (λ item, item ≠ el) (this_selected st)) ∧
  (el ∉ this_selected st') ∧
  isSelected el st' = false ∧
  (∀ x, x ≠ el → isSelected x st' = isSelected x st) ∧
  lastSelected st'.2 = Some el.
Proof.
  intros Hel. cbv zeta.
  assert (this_selected (deselect el st).2
          = reverse (filter (λ item, item ≠ el) (this_selected st))) as Hsel
    by (by rewrite deselect_this_selected, Hel).
  split; [|split; [done|split; [|split; [|split]]]].
  - unfold deselect. by rewrite Hel.
  - rewrite Hsel, elem_of_reverse, list_elem_of_filter. tauto.
  - apply not_true_iff_false. rewrite deselect_isSelected. tauto.
  - intros x Hne. apply eq_true_iff_eq. rewrite deselect_isSelected. tauto.
  - by rewrite deselect_lastSelected, Hel.
Qed.

Lemma deselect_removes_and_reverses_witness :
  let st := (select "C" (select "B" (select "A"
              (init "list" None (env (initial page)))).2).2).2 in
  let st' := (deselect "B" st).2 in
  (deselect "B" st).1 = true ∧
  this_selected st' = ["C"; "A"] ∧
  ("B" ∉ this_selected st') ∧
  isSelected "B" st' = false ∧
  (∀ x, x ≠ "B" → isSelected x st' = isSelected x st) ∧
  lastSelected st'.2 = Some "B".
Proof.
  exact (deselect_removes_and_reverses "B"
    (select "C" (select "B" (select "A"
       (init "list" None (env (initial page)))).2).2).2 eq_refl).
Defined.

(** X3: a second [deselect(el)] answers [false] and changes nothing: once the
    mark is off, [deselect] does not look at [selected] any more. *)
Theorem deselect_twice (el : Item) (st : St) :
  deselect el (deselect el st).2 = (false, (deselect el st).2).
Proof.
  assert (isSelected el (deselect el st).2 = false) as Hel.
  { apply not_true_iff_false. rewrite deselect_isSelected. tauto. }
  unfold deselect at 1. by rewrite Hel.
Qed.

(** X4: selecting an element that is neither marked nor an entry and then
    deselecting it gives the class marks back as they were, but not the
    array: [selected] comes back in reverse order, and the element stays the
    last selected. *)
Theorem select_then_deselect (el : Item) (st : St) :
  isSelected el st = false →
  el ∉ this_selected st →
  let st' := (deselect el (select el st).2).2 in
  classes (dom st'.1) = classes (dom st.1) ∧
  this_selected st' = reverse (this_selected st) ∧
  lastSelected st'.2 = Some el.
Proof.
  intros Hel Hn. cbv zeta.
  assert (isSelected el (select el st).2 = true) as Hel'
    by (apply select_isSelected; by right).
  destruct (select_frame el st) as (_&_&_&_&_&_&Hc&_).
  split; [|split].
  - rewrite deselect_classes, select_classes, Hc.
    apply isSelected_false in Hel. apply set_eq. intros p.
    rewrite elem_of_difference, elem_of_union, elem_of_singleton.
    split; [tauto|]. intros H. split; [by left|]. by intros ->.
  - rewrite deselect_this_selected, Hel', select_this_selected, Hel.
    rewrite filter_app, filter_cons, filter_nil.
    destruct (decide (el ≠ el)) as [?|_]; [done|]. rewrite app_nil_r.
    f_equal. induction (this_selected st) as [|a l IH]; [done|].
    apply not_elem_of_cons in Hn as [Hne Hn].
    rewrite filter_cons.
    destruct (decide (a ≠ el)) as [?|Hae]; [|exfalso; apply Hae; congruence].
    by rewrite IH.
  - by rewrite deselect_lastSelected, Hel'.
Qed.

Lemma select_then_deselect_witness :
  let st := (select "B" (select "A" (init "list" None (env (initial page)))).2).2 in
  let st' := (deselect "C" (select "C" st).2).2 in
  classes (dom st'.1) = classes (dom st.1) ∧
  this_selected st' = ["B"; "A"] ∧
  lastSelected st'.2 = Some "C".
Proof.
  apply (select_then_deselect "C"
    (select "B" (select "A" (init "list" None (env (initial page)))).2).2).
  - reflexivity.
  - vm_compute. not_in_list.
Defined.

(** ** The array on the prototype *)

Lemma call_env_objects (k : Item) (method : St → St) (sys : System) (this : Selectable) :
  objects sys !! k = Some this →
  env (call k method sys) = (method (env sys, this)).1 ∧
  objects (call k method sys) = <[k := (method (env sys, this)).2]> (objects sys).
Proof. intros H. unfold call. by rewrite H. Qed.

(** X5: while two controllers both read the prototype's array, [deselect] in
    one of them empties the array for the other: the caller pops the shared
    array empty and keeps the remaining entries in an array of its own. *)
Theorem deselect_empties_the_shared_array
    (sys : System) (k k' : Item) (this this' : Selectable) (el : Item) :
  k ≠ k' →
  objects sys !! k = Some this →
  objects sys !! k' = Some this' →
  selected this = None →
  selected this' = None →
  isSelected el (env sys, this) = true →
  let sys' := step sys (Deselect k el) in
  selected_of k' sys' = [] ∧
  selected_of k sys' =
    reverse (filter (λ item, item ≠ el) (prototype_selected (env sys))) ∧
  prototype_selected (env sys') = [].
Proof.
  intros Hne Hk Hk' Hown Hown' Hel. cbv zeta. cbn [step].
  destruct (call_env_objects k (λ st, (deselect el st).2) sys this Hk) as [He Ho].
  assert (prototype_selected (deselect el (env sys, this)).2.1 = []) as Hp.
  { unfold deselect. rewrite Hel. cbn [negb fst snd]. by rewrite Hown. }
  unfold selected_of. rewrite Ho, He.
  rewrite lookup_insert_ne by done. rewrite Hk', lookup_insert_eq.
  split; [|split; [|done]].
  - unfold this_selected. cbn [fst snd]. by rewrite Hown'.
  - change (this_selected (deselect el (env sys, this)).2
            = reverse (filter (λ item, item ≠ el) (prototype_selected (env sys)))).
    rewrite deselect_this_selected, Hel. unfold this_selected. cbn [fst snd].
    by rewrite Hown.
Qed.

Lemma deselect_empties_the_shared_array_witness :
  let sys := run [New "other" None; Select "list" "A"; Select "list" "B"] start in
  let sys' := step sys (Deselect "list" "B") in
  selected_of "other" sys = ["A"; "B"] ∧
  selected_of "other" sys' = [] ∧
  selected_of "list" sys' = ["A"] ∧
  prototype_selected (env sys') = [].
Proof.
  split; [by vm_compute|].
  exact (deselect_empties_the_shared_array
    (run [New "other" None; Select "list" "A"; Select "list" "B"] start)
    "list" "other"
    (mkSelectable "list" CSS_SELECTED None (Some "B") false None (0, 0)%Z)
    (mkSelectable "other" CSS_SELECTED None None false None (0, 0)%Z)
    "B" ltac:(discriminate) eq_refl eq_refl eq_refl eq_refl eq_refl).
Defined.

(** X6: what a controller without an array of its own selects is pushed on
    the prototype's array.  It shows in every other controller that has no
    array of its own either, not in one that has; and a controller created
    afterwards starts with it. *)
Theorem select_shows_in_sharing_instances
    (sys : System) (k k' : Item) (this this' : Selectable) (el : Item) :
  k ≠ k' →
  objects sys !! k = Some this →
  objects sys !! k' = Some this' →
  selected this = None →
  isSelected el (env sys, this) = false →
  let sys' := step sys (Select k el) in
  selected_of k' sys' =
    match selected this' with
    | Some own => own
    | None => prototype_selected (env sys) ++ [el]
    end ∧
  ∀ (fresh : Item) (c : option string),
    selected_of fresh (step sys' (New fresh c)) = prototype_selected (env sys) ++ [el].
Proof.
  intros Hne Hk Hk' Hown Hel. cbv zeta. cbn [step].
  destruct (call_env_objects k (λ st, (select el st).2) sys this Hk) as [He Ho].
  assert (prototype_selected (select el (env sys, this)).2.1
          = prototype_selected (env sys) ++ [el]) as Hp.
  { unfold select. rewrite Hel. unfold this_selected_push. cbn [fst snd].
    by rewrite Hown. }
  split.
  - unfold selected_of. rewrite Ho, He.
    rewrite lookup_insert_ne by done. rewrite Hk'.
    unfold this_selected. cbn [fst snd]. by rewrite Hp.
  - intros fresh c. unfold selected_of. cbn [objects]. rewrite lookup_insert_eq.
    unfold this_selected, init. cbn [fst snd selected]. by rewrite He, <- Hp.
Qed.

Lemma select_shows_in_sharing_instances_witness :
  let sys := run [New "other" None; Select "list" "A"] start in
  let sys' := step sys (Select "list" "B") in
  selected_of "other" sys' = ["A"; "B"] ∧
  ∀ (fresh : Item) (c : option string),
    selected_of fresh (step sys' (New fresh c)) = ["A"; "B"].
Proof.
  exact (select_shows_in_sharing_instances
    (run [New "other" None; Select "list" "A"] start)
    "list" "other"
    (mkSelectable "list" CSS_SELECTED None (Some "A") false None (0, 0)%Z)
    (mkSelectable "other" CSS_SELECTED None None false None (0, 0)%Z)
    "B" ltac:(discriminate) eq_refl eq_refl eq_refl eq_refl).
Defined.

(** ** [getTarget] and the click handler *)

Lemma getTarget_walk_None (element : Item) (p : list Item) :
  getTarget_walk element p = None ↔ element ∉ tail p.
Proof.
  induction p as [|x [|y r] IH]; simpl in *.
  - split; [intros _; apply not_elem_of_nil|done].
  - split; [intros _; apply not_elem_of_nil|done].
  - destruct (decide (y = element)) as [->|Hne].
    + split; [done|]. intros H. exfalso. apply H. left.
    + rewrite IH, not_elem_of_cons. split; [|by intros [_ H]].
      intros H. split; [congruence|done].
Qed.

Lemma getTarget_walk_Some (element : Item) (p : list Item) (t : Item) :
  getTarget_walk element p = Some t ↔
  ∃ pre post, p = pre ++ t :: element :: post ∧ element ∉ tail (pre ++ [t]).
Proof.
  split.
  - induction p as [|x [|y r] IH]; simpl in *; [done..|].
    destruct (decide (y = element)) as [->|Hne].
    + intros [= ->]. exists [], r. split; [done|]. apply not_elem_of_nil.
    + intros H. destruct (IH H) as (pre & post & Hp & Hn).
      exists (x :: pre), post. rewrite Hp. split; [done|]. simpl.
      destruct pre as [|z pre]; simpl in *.
      * injection Hp as -> _. apply not_elem_of_cons. split; [congruence|].
        apply not_elem_of_nil.
      * injection Hp as -> _. apply not_elem_of_cons. split; [congruence|done].
  - intros (pre & post & -> & Hn). induction pre as [|x pre IH]; simpl in *.
    + by rewrite decide_True.
    + destruct pre as [|z pre]; simpl in *.
      * apply not_elem_of_cons in Hn as [Hne _].
        rewrite decide_False by congruence. by rewrite decide_True.
      * apply not_elem_of_cons in Hn as [Hne Hn].
        rewrite decide_False by congruence. by apply IH.
Qed.

(** X7: [getTarget] answers the first node on the way up from the event's
    target whose parent is the controller's element: the chain of ancestors
    splits into the nodes below it, the node itself, the element and the
    rest, and no node before it has the element as its parent. *)
Theorem getTarget_first_child_on_path (evt : Event) (st : St) (t : Item) :
  getTarget evt st = Some t ↔
  ∃ pre post, path evt = pre ++ t :: element st.2 :: post ∧
              element st.2 ∉ tail (pre ++ [t]).
Proof. apply getTarget_walk_Some. Qed.

(** X8: a click whose target is not below the controller's element (the
    element is not among the proper ancestors of the target, as for a click
    on the element itself) changes nothing, whatever the modifier keys. *)
Theorem click_outside_is_ignored (evt : Event) (st : St) :
  element st.2 ∉ tail (path evt) →
  handleClickEvent evt st = st.
Proof.
  intros Hn. apply getTarget_walk_None in Hn.
  unfold handleClickEvent, getTarget. by rewrite Hn.
Qed.

Lemma click_outside_is_ignored_witness :
  let st := (select "A" (init "list" None (env (initial page)))).2 in
  handleClickEvent (mkEvent ["list"; "body"; "html"] false true (0, 0)%Z) st = st.
Proof.
  apply click_outside_is_ignored. vm_compute. not_in_list.
Defined.

(** X9: with the ctrl key held and the shift key not, a click toggles its
    target: the mark of the target is inverted, no other mark changes, and the
    target becomes the last selected. *)
Theorem ctrl_click_toggles (evt : Event) (st : St) (target : Item) :
  getTarget evt st = Some target →
  ctrlKey evt = true →
  shiftKey evt = false →
  let st' := handleClickEvent evt st in
  isSelected target st' = negb (isSelected target st) ∧
  (∀ x, x ≠ target → isSelected x st' = isSelected x st) ∧
  lastSelected st'.2 = Some target.
Proof.
  intros Hget Hctrl Hshift. unfold handleClickEvent.
  rewrite Hget, Hctrl, Hshift. simpl bool_decide. cbv iota zeta.
  destruct (isSelected target st) eqn:Hel; simpl negb.
  - split; [|split].
    + apply not_true_iff_false. rewrite deselect_isSelected. tauto.
    + intros x Hne. apply eq_true_iff_eq. rewrite deselect_isSelected. tauto.
    + by rewrite deselect_lastSelected, Hel.
  - split; [|split].
    + apply select_isSelected. by right.
    + intros x Hne. apply eq_true_iff_eq. rewrite select_isSelected. tauto.
    + by rewrite select_lastSelected, Hel.
Qed.

Lemma ctrl_click_toggles_witness :
  let st := (select "C" (select "A" (init "list" None (env (initial page)))).2).2 in
  let st' := handleClickEvent (mkEvent ["A"; "list"; "body"] true false (0, 0)%Z) st in
  isSelected "A" st' = false ∧
  (∀ x, x ≠ "A" → isSelected x st' = isSelected x st) ∧
  lastSelected st'.2 = Some "A".
Proof.
  exact (ctrl_click_toggles (mkEvent ["A"; "list"; "body"] true false (0, 0)%Z)
    (select "C" (select "A" (init "list" None (env (initial page)))).2).2
    "A" eq_refl eq_refl eq_refl).
Defined.

(** X10: a shift-click takes [lastSelected] as the anchor without checking
    that it is still a child of the element.  When it is not, the range is
    empty and nothing is selected, the clicked item included: with ctrl held
    the click only moves the focus to the element. *)
Theorem shift_click_with_stale_anchor (evt : Event) (st : St) (target last : Item) :
  getTarget evt st = Some target →
  ctrlKey evt = true →
  shiftKey evt = true →
  lastSelected st.2 = Some last →
  last ∉ getChildren st →
  handleClickEvent evt st =
  (set_dom (set_focused (ItemNode (element st.2))) st.1, st.2).
Proof.
  intros Hget Hctrl Hshift Hlast Hn. unfold handleClickEvent.
  rewrite Hget, Hctrl, Hshift. simpl bool_decide. cbv iota zeta. rewrite Hlast.
  unfold selectRange, getElements.
  change (getChildren (set_dom (set_focused (ItemNode (element st.2))) st.1, st.2))
    with (getChildren st).
  apply resolve_Element_None in Hn. by rewrite Hn.
Qed.

Lemma shift_click_with_stale_anchor_witness :
  let st := (select "Z" (init "list" None (env (initial page)))).2 in
  handleClickEvent (mkEvent ["C"; "list"; "body"] true true (0, 0)%Z) st =
  (set_dom (set_focused (ItemNode "list")) st.1, st.2).
Proof.
  apply (shift_click_with_stale_anchor
    (mkEvent ["C"; "list"; "body"] true true (0, 0)%Z)
    (select "Z" (init "list" None (env (initial page)))).2 "C" "Z");
    [reflexivity..|].
  vm_compute. not_in_list.
Defined.

(** ** [selectAll], [deselectAll] and the range *)

Lemma foldl_add_class_elem (c : string) (els : list Item) (cl : gset (Item * string))
    (p : Item * string) :
  p ∈ foldl (λ cl el, cl ∪ {[ (el, c) ]}) cl els ↔ p ∈ cl ∨ ∃ el, el ∈ els ∧ p = (el, c).
Proof.
  pose proof (classes_batch_addClass c els (mkDom (λ _, []) (λ _, Region.of_xywh 0 0 0 0) cl None) p)
    as H.
  by rewrite batch_addClass in H.
Qed.

Lemma foldl_remove_class_elem (c : string) (els : list Item) (cl : gset (Item * string))
    (p : Item * string) :
  p ∈ foldl (λ cl el, cl ∖ {[ (el, c) ]}) cl els ↔ p ∈ cl ∧ ¬ ∃ el, el ∈ els ∧ p = (el, c).
Proof.
  pose proof (classes_batch_removeClass c els (mkDom (λ _, []) (λ _, Region.of_xywh 0 0 0 0) cl None) p)
    as H.
  by rewrite batch_removeClass in H.
Qed.

(** X11: [selectAll] makes [selected] the list of the children and marks each
    child; marks set before stay, also on elements that are no children, and
    [lastSelected] is not touched.  A second [selectAll] changes nothing. *)
Theorem selectAll_effect (st : St) :
  this_selected (selectAll st) = getChildren st ∧
  (∀ x, isSelected x (selectAll st) = true ↔ isSelected x st = true ∨ x ∈ getChildren st) ∧
  lastSelected (selectAll st).2 = lastSelected st.2 ∧
  selectAll (selectAll st) = selectAll st.
Proof.
  split; [done|]. split; [intros x; apply selectAll_isSelected|]. split; [done|].
  destruct st as [e s]. unfold selectAll, set_dom, this_selected, getChildren.
  cbn [fst snd selected set_selected dom children element selectClass].
  rewrite !batch_addClass. unfold set_classes. cbn [children classes region_of focused].
  do 2 f_equal. f_equal. apply set_eq. intros p.
  rewrite !foldl_add_class_elem. tauto.
Qed.

(** X12: [deselectAll] takes the mark off the entries of [selected] and off
    nothing else: an element that is marked without being an entry stays
    marked.  It does not touch [lastSelected], and a second [deselectAll]
    changes nothing. *)
Theorem deselectAll_only_unmarks_entries (st : St) :
  (∀ x, isSelected x (deselectAll st) = true ↔
        isSelected x st = true ∧ x ∉ this_selected st) ∧
  lastSelected (deselectAll st).2 = lastSelected st.2 ∧
  deselectAll (deselectAll st) = deselectAll st.
Proof.
  split; [intros x; apply deselectAll_isSelected|]. split; [done|].
  destruct st as [e s]. unfold deselectAll, set_dom, this_selected.
  cbn [fst snd dom prototype_selected].
  rewrite !batch_removeClass. unfold set_classes. cbn [children classes region_of focused].
  do 2 f_equal. f_equal. apply set_eq. intros p.
  rewrite !foldl_remove_class_elem. tauto.
Qed.

Lemma slice_sublist (a : list Item) (start end_ : Z) : slice a start end_ `sublist_of` a.
Proof.
  unfold slice. etrans; [apply sublist_take|apply sublist_drop].
Qed.

Lemma getElements_sublist (a b : Endpoint) (st : St) :
  getElements a b st `sublist_of` getChildren st.
Proof.
  unfold getElements.
  destruct (resolve (getChildren st) a) as [ia|]; [|apply sublist_nil_l].
  destruct (resolve (getChildren st) b) as [ib|]; [|apply sublist_nil_l].
  destruct (ib <? ia)%Z; apply slice_sublist.
Qed.

(** X13: whatever the endpoints (elements or numbers, negative ones and ones
    beyond the end included), [getElements] returns children of the element,
    in the order the children have; so [selectRange] marks nothing but
    children and adds nothing but children to [selected]. *)
Theorem selectRange_stays_among_children (a b : Endpoint) (st : St) :
  getElements a b st `sublist_of` getChildren st ∧
  (∀ x, isSelected x (selectRange a b st) = true →
        isSelected x st = true ∨ x ∈ getChildren st) ∧
  (∀ x, x ∈ this_selected (selectRange a b st) →
        x ∈ this_selected st ∨ x ∈ getChildren st).
Proof.
  pose proof (getElements_sublist a b st) as Hsub.
  split; [done|]. unfold selectRange. split; intros x H.
  - apply select_each_isSelected in H as [H|H]; [by left|].
    right. by eapply elem_of_sublist.
  - apply select_each_this_selected in H as [H|[H _]]; [by left|].
    right. by eapply elem_of_sublist.
Qed.

(** X14: the index [getElements] finds for an element is its position among
    the children: for children that are all different, the element at
    position [n] resolves to [n]. *)
Theorem getIndex_of_child (ch : list Item) (n : nat) (el : Item) :
  NoDup ch →
  ch !! n = Some el →
  getIndex ch el = Z.of_nat n ∧ resolve ch (Element el) = Some (Z.of_nat n).
Proof.
  intros Hnd Hn.
  assert (el ∈ ch) as Hin by (apply list_elem_of_lookup; by exists n).
  destruct (getIndex_from_in 0 ch el Hin) as [Hle Hlk]. fold (getIndex ch el) in *.
  rewrite Z.sub_0_r in Hlk.
  pose proof (NoDup_lookup ch _ _ el Hnd Hlk Hn) as Heq.
  assert (getIndex ch el = Z.of_nat n) as Hi by lia.
  split; [done|]. unfold resolve. rewrite Hi.
  by rewrite bool_decide_eq_false_2 by lia.
Qed.

Lemma getIndex_of_child_witness :
  getIndex ["A"; "B"; "C"; "D"; "E"] "D" = 3%Z ∧
  resolve ["A"; "B"; "C"; "D"; "E"] (Element "D") = Some 3%Z.
Proof.
  apply (getIndex_of_child ["A"; "B"; "C"; "D"; "E"] 3 "D"); [|reflexivity].
  by repeat (apply NoDup_cons; split; [not_in_list|]); apply NoDup_nil.
Defined.

(** ** The pointer handlers *)

Lemma handleClickEvent_frame (evt : Event) (st : St) :
  same_frame st (handleClickEvent evt st).
Proof.
  unfold handleClickEvent.
  destruct (getTarget evt st) as [target|]; [|apply same_frame_refl].
  set (st1 := if bool_decide (ctrlKey evt = false) then deselectAll st else st).
  assert (same_frame st st1) as H1.
  { unfold st1. case_bool_decide; [apply deselectAll_frame|apply same_frame_refl]. }
  cbv zeta. apply (same_frame_trans _ _ _ H1).
  destruct (shiftKey evt), (lastSelected st1.2);
    try (destruct (isSelected target st1); [apply deselect_frame|apply select_frame]).
  eapply same_frame_trans; [|apply selectRange_frame]. by repeat split.
Qed.

(** What pointer-up keeps: the page, the cache, the registry and the
    configuration of the instance. *)
Lemma handleMouseUpEvent_keeps (evt : Event) (st : St) :
  let st' := handleMouseUpEvent evt st in
  children (dom st'.1) = children (dom st.1) ∧
  instances st'.1 = instances st.1 ∧
  element st'.2 = element st.2 ∧
  selectClass st'.2 = selectClass st.2.
Proof.
  unfold handleMouseUpEvent. cbn [fst snd]. simpl overlayShown.
  destruct (overlayShown st.2) as [[]|]; [|done..]. cbv zeta. cbn [fst snd].
  set (st0 := (st.1, set_mouseDown false st.2)).
  set (st1 := if negb (ctrlKey evt) then deselectAll st0 else st0).
  assert (same_frame st0 st1) as H1.
  { unfold st1. destruct (negb (ctrlKey evt)); [apply deselectAll_frame|apply same_frame_refl]. }
  pose proof (same_frame_trans _ _ _ H1 (select_each_frame (Overlay.getContains st.1) st1))
    as (Hc&_&_&_&Hi&He&Hs&_).
  repeat split; simpl; [by rewrite Hc|by rewrite Hi|by rewrite He|by rewrite Hs].
Qed.

Lemma handleMouseMoveEvent_keeps (evt : Event) (st : St) :
  let st' := handleMouseMoveEvent evt st in
  children (dom st'.1) = children (dom st.1) ∧
  classes (dom st'.1) = classes (dom st.1) ∧
  prototype_selected st'.1 = prototype_selected st.1 ∧
  instances st'.1 = instances st.1 ∧
  element st'.2 = element st.2 ∧
  selectClass st'.2 = selectClass st.2 ∧
  selected st'.2 = selected st.2 ∧
  lastSelected st'.2 = lastSelected st.2.
Proof.
  unfold handleMouseMoveEvent. case_bool_decide; [done|].
  case_bool_decide; [|done]. cbv zeta. cbn [fst snd].
  destruct (refreshCache_frame st.1) as (Hd & _ & Hp & Hi).
  repeat split; simpl; by rewrite ?Hd, ?Hp, ?Hi.
Qed.

(** X15: pointer-up while the overlay is shown, with or without the ctrl
    key: every element [getContains] returns is marked afterwards, and no
    element gets a mark that had none and was not returned; the overlay is
    hidden, the drag is over, and the cache is as it was. *)
Theorem lasso_marks_returned_elements (evt : Event) (st : St) :
  overlayShown st.2 = Some true →
  let st' := handleMouseUpEvent evt st in
  let elements := Overlay.getContains st.1 in
  (∀ x, x ∈ elements → isSelected x st' = true) ∧
  (∀ x, isSelected x st' = true → x ∈ elements ∨ isSelected x st = true) ∧
  hidden (_overlay st'.1) = true ∧
  overlayShown st'.2 = Some false ∧
  mouseDown st'.2 = false ∧
  cache st'.1 = cache st.1.
Proof.
  intros Hshown. cbv zeta.
  split; [|split; [|split; [|split; [|split]]]];
    try (rewrite handleMouseUpEvent_cache; reflexivity).
  all: unfold handleMouseUpEvent; destruct st as [e s]; cbn [fst snd] in *;
    simpl overlayShown; rewrite Hshown; cbv iota zeta; cbn [fst snd];
    set (st0 := (e, set_mouseDown false s));
    set (st1 := if negb (ctrlKey evt) then deselectAll st0 else st0).
  - intros x Hx.
    change (isSelected x (select_each (Overlay.getContains e) st1) = true).
    apply select_each_isSelected. by right.
  - intros x Hx.
    change (isSelected x (select_each (Overlay.getContains e) st1) = true) in Hx.
    apply select_each_isSelected in Hx as [Hx|Hx]; [|by left]. right.
    unfold st1 in Hx. destruct (negb (ctrlKey evt)); [|done].
    by apply (deselectAll_isSelected x st0) in Hx as [Hx _].
  - done.
  - done.
  - destruct (select_each_frame (Overlay.getContains e) st1) as (_&_&_&_&_&_&_&Hd&_).
    simpl. rewrite Hd. unfold st1. by destruct (negb (ctrlKey evt)).
Qed.

Lemma lasso_marks_returned_elements_witness :
  let sys := run [down 0 0; move 15 15; up false; down 0 0; move 35 35] start in
  let st := (env sys, mkSelectable "list" CSS_SELECTED None None true (Some true) (0, 0)%Z) in
  let st' := handleMouseUpEvent (mkEvent ["list"; "body"] true false (0, 0)%Z) st in
  objects sys !! "list" = Some st.2 ∧
  Overlay.getContains st.1 = ["A"; "B"] ∧
  (∀ x, x ∈ ["A"; "B"] → isSelected x st' = true) ∧
  (∀ x, isSelected x st' = true → x ∈ ["A"; "B"] ∨ isSelected x st = true) ∧
  hidden (_overlay st'.1) = true ∧
  overlayShown st'.2 = Some false ∧
  mouseDown st'.2 = false ∧
  cache st'.1 = cache st.1.
Proof.
  split; [by vm_compute|]. split; [by vm_compute|].
  exact (lasso_marks_returned_elements (mkEvent ["list"; "body"] true false (0, 0)%Z)
    (env (run [down 0 0; move 15 15; up false; down 0 0; move 35 35] start),
     mkSelectable "list" CSS_SELECTED None None true (Some true) (0, 0)%Z)
    eq_refl).
Defined.

(** X16: pointer-up while the overlay is shown, with the ctrl key held,
    extends the selection: the marked elements are those marked before and
    those returned, no entry leaves [selected], and the returned elements
    that had no mark are added to it. *)
Theorem lasso_with_ctrl_extends (evt : Event) (st : St) :
  overlayShown st.2 = Some true →
  ctrlKey evt = true →
  let st' := handleMouseUpEvent evt st in
  let elements := Overlay.getContains st.1 in
  (∀ x, isSelected x st' = true ↔ isSelected x st = true ∨ x ∈ elements) ∧
  (∀ x, x ∈ this_selected st' ↔
        x ∈ this_selected st ∨ (x ∈ elements ∧ isSelected x st = false)).
Proof.
  intros Hshown Hctrl. unfold handleMouseUpEvent. destruct st as [e s].
  cbn [fst snd] in *. simpl overlayShown. rewrite Hshown, Hctrl.
  simpl negb. cbv iota zeta. cbn [fst snd].
  split; intros x.
  - change (isSelected x (select_each (Overlay.getContains e) (e, set_mouseDown false s)) = true
            ↔ isSelected x (e, s) = true ∨ x ∈ Overlay.getContains e).
    by rewrite select_each_isSelected.
  - change (x ∈ this_selected (select_each (Overlay.getContains e) (e, set_mouseDown false s))
            ↔ x ∈ this_selected (e, s)
              ∨ x ∈ Overlay.getContains e ∧ isSelected x (e, s) = false).
    by rewrite select_each_this_selected.
Qed.

Lemma lasso_with_ctrl_extends_witness :
  let sys := run [click "E" false false; down 0 0; move 15 15; up false;
                  down 0 0; move 35 35] start in
  let st := (env sys, mkSelectable "list" CSS_SELECTED None (Some "E") true (Some true) (0, 0)%Z) in
  let st' := handleMouseUpEvent (mkEvent ["list"; "body"] true false (0, 0)%Z) st in
  objects sys !! "list" = Some st.2 ∧
  Overlay.getContains st.1 = ["A"; "B"] ∧
  (∀ x, isSelected x st' = true ↔ isSelected x st = true ∨ x ∈ ["A"; "B"]) ∧
  (∀ x, x ∈ this_selected st' ↔
        x ∈ this_selected st ∨ (x ∈ ["A"; "B"] ∧ isSelected x st = false)).
Proof.
  split; [by vm_compute|]. split; [by vm_compute|].
  exact (lasso_with_ctrl_extends (mkEvent ["list"; "body"] true false (0, 0)%Z)
    (env (run [click "E" false false; down 0 0; move 15 15; up false;
               down 0 0; move 35 35] start),
     mkSelectable "list" CSS_SELECTED None (Some "E") true (Some true) (0, 0)%Z)
    eq_refl eq_refl).
Defined.

(** X17: pressing the button and moving the pointer select nothing: neither
    handler changes a class mark, an entry of [selected] or
    [lastSelected]. *)
Theorem press_and_move_keep_selection (evt : Event) (st : St) :
  (let st' := handleMouseDownEvent evt st in
   classes (dom st'.1) = classes (dom st.1) ∧
   this_selected st' = this_selected st ∧
   lastSelected st'.2 = lastSelected st.2) ∧
  (let st' := handleMouseMoveEvent evt st in
   classes (dom st'.1) = classes (dom st.1) ∧
   this_selected st' = this_selected st ∧
   lastSelected st'.2 = lastSelected st.2).
Proof.
  split; [done|]. cbv zeta.
  destruct (handleMouseMoveEvent_keeps evt st) as (_ & Hc & Hp & _ & _ & _ & Hs & Hl).
  split; [done|]. split; [|done].
  unfold this_selected. by rewrite Hs, Hp.
Qed.

Lemma handleMouseMoveEvent_released (evt : Event) (st : St) :
  mouseDown st.2 = false → handleMouseMoveEvent evt st = st.
Proof. intros H. unfold handleMouseMoveEvent. by rewrite H. Qed.

Lemma handleMouseMoveEvent_pressed (evt : Event) (e : Env) (s : Selectable) :
  mouseDown s = true →
  handleMouseMoveEvent evt (e, s) =
  (set_dom (set_focused OverlayNode)
     (Overlay.setWidth (Z.abs ((pageXY evt).1 - (initXy s).1))
        (Overlay.setHeight (Z.abs ((pageXY evt).2 - (initXy s).2))
           (Overlay.moveTo (Z.min (pageXY evt).1 (initXy s).1,
                            Z.min (pageXY evt).2 (initXy s).2)
              (if bool_decide (overlayShown s = Some false)
               then Overlay.show e else e)))),
   set_overlayShown true s).
Proof.
  intros H. unfold handleMouseMoveEvent. cbn [fst snd]. rewrite H.
  by destruct (bool_decide (overlayShown s = Some false)).
Qed.


(** ** What holds on every page, whatever has happened *)

Lemma run_invariant (I : System → Prop) (ops : list Op) (sys : System) :
  I sys → (∀ sys op, I sys → I (step sys op)) → I (run ops sys).
Proof.
  intros H0 Hstep. revert sys H0. unfold run.
  induction ops as [|op ops IH]; intros sys H0; [done|].
  simpl. by apply IH, Hstep.
Qed.

Lemma handleMouseUpEvent_not_shown (evt : Event) (st : St) :
  overlayShown (handleMouseUpEvent evt st).2 ≠ Some true.
Proof.
  unfold handleMouseUpEvent. cbn [fst snd]. simpl overlayShown.
  by destruct (overlayShown st.2) as [[]|] eqn:H; simpl; rewrite ?H.
Qed.

(** What every method keeps of the instance it runs on. *)
Lemma method_keeps_instance (op : Op) (k : Item) (method : St → St) (st : St) :
  method_of op = Some (k, method) →
  (overlayShown st.2 = Some true → mouseDown st.2 = true) →
  element (method st).2 = element st.2 ∧
  selectClass (method st).2 = selectClass st.2 ∧
  (overlayShown (method st).2 = Some true → mouseDown (method st).2 = true).
Proof.
  intros Hm Hinv.
  assert (∀ st', same_frame st st' →
    element st'.2 = element st.2 ∧ selectClass st'.2 = selectClass st.2 ∧
    (overlayShown st'.2 = Some true → mouseDown st'.2 = true)) as Hframe.
  { intros st' (_&_&_&_&_&He&Hs&Hd&Ho&_). by rewrite He, Hs, Hd, Ho. }
  destruct op; cbn [method_of] in Hm; simplify_eq.
  - apply Hframe, select_frame.
  - apply Hframe, deselect_frame.
  - apply Hframe, selectRange_frame.
  - apply Hframe, selectAll_frame.
  - apply Hframe, deselectAll_frame.
  - apply Hframe, handleClickEvent_frame.
  - done.
  - destruct (handleMouseUpEvent_keeps evt st) as (_ & _ & He & Hs).
    split; [done|]. split; [done|]. intros H.
    by apply handleMouseUpEvent_not_shown in H.
  - destruct (handleMouseMoveEvent_keeps evt st) as (_ & _ & _ & _ & He & Hs & _).
    split; [done|]. split; [done|]. destruct st as [e s].
    destruct (mouseDown s) eqn:Hd.
    + by rewrite handleMouseMoveEvent_pressed.
    + by rewrite (handleMouseMoveEvent_released _ (e, s) Hd).
Qed.

Lemma step_method (op : Op) (k : Item) (method : St → St) (sys : System) :
  method_of op = Some (k, method) → step sys op = call k method sys.
Proof. intros H. by destruct op; cbn [method_of] in H; simplify_eq. Qed.

(** X19: on every page, after any sequence of operations, each controller
    is registered under the id of its own element and has [overlayShown]
    true only while [mouseDown] is true: pointer-up always ends the drag. *)
Theorem overlay_shown_only_while_pressed
    (d : Dom) (ops : list Op) (k : Item) (this : Selectable) :
  objects (run ops (initial d)) !! k = Some this →
  element this = k ∧
  (overlayShown this = Some true → mouseDown this = true).
Proof.
  revert k this.
  apply (run_invariant (λ sys, ∀ k this, objects sys !! k = Some this →
    element this = k ∧
    (overlayShown this = Some true → mouseDown this = true))).
  - intros k this H. unfold initial in H. cbn [objects] in H.
    by rewrite lookup_empty in H.
  - intros sys op IH k this.
    destruct (method_of op) as [[k0 method]|] eqn:Hm.
    + rewrite (step_method op k0 method sys Hm). unfold call.
      destruct (objects sys !! k0) as [this0|] eqn:Hk0; [|apply IH].
      cbn [objects]. rewrite lookup_insert. case_decide as Hk; [|apply IH].
      subst k0. intros [= <-].
      destruct (IH k this0 Hk0) as (He & Hf).
      destruct (method_keeps_instance op k method (env sys, this0) Hm Hf)
        as (He' & _ & Hf').
      split; [by rewrite He'|done].
    + destruct op; try discriminate Hm; cbn [step objects]; [|apply IH].
      rewrite lookup_insert. case_decide as Hk; [|apply IH].
      subst k. by intros [= <-].
Qed.

Lemma overlay_shown_only_while_pressed_witness :
  let this := mkSelectable "list" CSS_SELECTED None None true (Some true) (0, 0)%Z in
  objects (run [down 0 0; move 15 15] (initial page)) !! "list" = None ∧
  objects (run [New "list" None; down 0 0; move 15 15] (initial page)) !! "list"
    = Some this ∧
  element this = "list" ∧
  (overlayShown this = Some true → mouseDown this = true).
Proof.
  split; [by vm_compute|]. split; [by vm_compute|].
  exact (overlay_shown_only_while_pressed page [New "list" None; down 0 0; move 15 15]
    "list" (mkSelectable "list" CSS_SELECTED None None true (Some true) (0, 0)%Z)
    eq_refl).
Defined.

Lemma cache_put_NoDup (id : Item) (region : Region.t) (c : list (Item * Region.t)) :
  NoDup c.*1 → NoDup (Overlay.cache_put id region c).*1.
Proof.
  induction c as [|[k v] c IH]; simpl; intros H.
  - apply NoDup_singleton.
  - apply NoDup_cons in H as [Hk H].
    destruct (decide (k = id)) as [->|Hne]; simpl.
    + by apply NoDup_cons.
    + apply NoDup_cons. split; [|by apply IH].
      rewrite cache_put_keys. by intros [?|?].
Qed.

Lemma _cacheRegion_batch_NoDup (els : list Item) (e : Env) :
  NoDup (cache e).*1 → NoDup (cache (Dom.batch els Overlay._cacheRegion e)).*1.
Proof.
  revert e. induction els as [|el els IH]; intros e H; [done|].
  rewrite batch_cons. apply IH. by apply cache_put_NoDup.
Qed.

Lemma refreshCache_NoDup (e : Env) :
  NoDup (cache e).*1 → NoDup (cache (Overlay.refreshCache e)).*1.
Proof.
  unfold Overlay.refreshCache. generalize (instances e) as ks. intros ks. revert e.
  induction ks as [|k ks IH]; intros e H; [done|].
  simpl. by apply IH, _cacheRegion_batch_NoDup.
Qed.

Lemma method_keeps_env (op : Op) (k : Item) (method : St → St) (st : St) :
  method_of op = Some (k, method) →
  NoDup (cache st.1).*1 →
  NoDup (cache (method st).1).*1 ∧ instances (method st).1 = instances st.1.
Proof.
  intros Hm Hnd.
  assert (∀ st', same_frame st st' →
    NoDup (cache st'.1).*1 ∧ instances st'.1 = instances st.1) as Hframe.
  { intros st' (_&_&_&Hc&Hi&_). by rewrite Hc, Hi. }
  destruct op; cbn [method_of] in Hm; simplify_eq.
  - apply Hframe, select_frame.
  - apply Hframe, deselect_frame.
  - apply Hframe, selectRange_frame.
  - apply Hframe, selectAll_frame.
  - apply Hframe, deselectAll_frame.
  - apply Hframe, handleClickEvent_frame.
  - done.
  - destruct (handleMouseUpEvent_keeps evt st) as (_ & Hi & _).
    by rewrite handleMouseUpEvent_cache.
  - destruct (handleMouseMoveEvent_keeps evt st) as (_ & _ & _ & Hi & _).
    split; [|done]. destruct st as [e s]. destruct (mouseDown s) eqn:Hd.
    + rewrite handleMouseMoveEvent_pressed by done. cbn [fst].
      case_bool_decide; [|done]. by apply refreshCache_NoDup.
    + by rewrite (handleMouseMoveEvent_released _ (e, s) Hd).
Qed.

Lemma getContains_loop_filter (region : Region.t) (c : list (Item * Region.t))
    (acc : list Item) :
  Overlay.getContains_loop region c acc =
  acc ++ (filter (λ p, Overlay.inRegion p.2 region = true) c).*1.
Proof.
  revert acc. induction c as [|[id r] c IH]; intros acc; simpl.
  - by rewrite app_nil_r.
  - rewrite IH, filter_cons. simpl.
    destruct (Overlay.inRegion r region) eqn:Hr.
    + rewrite decide_True by done. by rewrite <- app_assoc.
    + by rewrite decide_False by done.
Qed.

(** X20: on every page, after any sequence of operations, no id is a key of
    the cache twice and no element is in the registry twice; so
    [getContains] returns no element twice. *)
Theorem cache_and_registry_without_duplicates (d : Dom) (ops : list Op) :
  let e := env (run ops (initial d)) in
  NoDup (cache e).*1 ∧
  NoDup (instances e) ∧
  NoDup (Overlay.getContains e).
Proof.
  cbv zeta.
  assert (NoDup (cache (env (run ops (initial d)))).*1 ∧
          NoDup (instances (env (run ops (initial d))))) as [Hc Hi].
  { apply (run_invariant (λ sys, NoDup (cache (env sys)).*1 ∧ NoDup (instances (env sys)))).
    - split; apply NoDup_nil_2.
    - intros sys op [Hc Hi].
      destruct (method_of op) as [[k method]|] eqn:Hm.
      + rewrite (step_method op k method sys Hm). unfold call.
        destruct (objects sys !! k) as [this|]; [|done]. cbn [env].
        destruct (method_keeps_env op k method (env sys, this) Hm Hc) as [Hc' Hi'].
        split; [done|]. by rewrite Hi'.
      + destruct op; try discriminate Hm; cbn [step env]; [|done].
        split; [done|]. unfold init, register. cbn [fst instances set_instances].
        case_bool_decide as Hin; [done|].
        apply NoDup_app. split; [done|]. split; [|apply NoDup_singleton].
        intros x Hx Hx'. apply list_elem_of_singleton in Hx' as ->. done. }
  assert (Overlay.getContains (env (run ops (initial d)))
          `sublist_of` (cache (env (run ops (initial d)))).*1) as Hsub.
  { unfold Overlay.getContains. rewrite getContains_loop_filter. simpl.
    apply fmap_sublist, sublist_filter. }
  split; [done|]. split; [done|].
  exact (sublist_NoDup _ _ Hc Hsub).
Qed.

(** ** What [refreshCache] writes *)

Lemma cache_put_other (id id' : Item) (r r' : Region.t) (c : list (Item * Region.t)) :
  id ≠ id' → (id, r) ∈ Overlay.cache_put id' r' c ↔ (id, r) ∈ c.
Proof.
  intros Hne. induction c as [|[k v] c IH]; simpl.
  - rewrite list_elem_of_singleton. split; [congruence|].
    intros H. by apply elem_of_nil in H.
  - destruct (decide (k = id')) as [->|Hk].
    + rewrite !elem_of_cons. split; (intros [H|H]; [congruence|by right]).
    + by rewrite !elem_of_cons, IH.
Qed.

Lemma cache_entry_unique (c : list (Item * Region.t)) (id : Item) (r r' : Region.t) :
  NoDup c.*1 → (id, r) ∈ c → (id, r') ∈ c → r = r'.
Proof.
  induction c as [|[k v] c IH]; simpl; intros Hnd H H'.
  - by apply elem_of_nil in H.
  - apply NoDup_cons in Hnd as [Hk Hnd].
    apply elem_of_cons in H as [H|H], H' as [H'|H'].
    + congruence.
    + injection H as -> ->. exfalso. apply Hk.
      apply list_elem_of_fmap. by exists (k, r').
    + injection H' as -> ->. exfalso. apply Hk.
      apply list_elem_of_fmap. by exists (k, r).
    + by apply IH.
Qed.

(** A batch of [_cacheRegion] keeps an entry that holds the current region,
    and any entry of an element that is not in the batch. *)
Lemma _cacheRegion_batch_keeps (els : list Item) (e : Env) (id : Item) (r : Region.t) :
  r = region_of (dom e) id ∨ id ∉ els →
  (id, r) ∈ cache e →
  (id, r) ∈ cache (Dom.batch els Overlay._cacheRegion e).
Proof.
  revert e. induction els as [|el els IH]; intros e Hr H; [done|].
  rewrite batch_cons. apply IH.
  - destruct Hr as [Hr|Hn]; [by left|]. right.
    by apply not_elem_of_cons in Hn as [_ Hn].
  - unfold Overlay._cacheRegion. cbn [cache set_cache].
    destruct (decide (id = el)) as [->|Hne].
    + destruct Hr as [->|Hn]; [apply cache_put_lookup|].
      exfalso. apply Hn. left.
    + by apply cache_put_other.
Qed.

Lemma _cacheRegion_batch_fresh (els : list Item) (e : Env) (id : Item) :
  id ∈ els →
  (id, region_of (dom e) id) ∈ cache (Dom.batch els Overlay._cacheRegion e).
Proof.
  revert e. induction els as [|el els IH]; intros e H.
  - by apply elem_of_nil in H.
  - rewrite batch_cons. destruct (decide (id = el)) as [->|Hne].
    + apply (_cacheRegion_batch_keeps els (Overlay._cacheRegion el e)); [by left|].
      apply cache_put_lookup.
    + apply elem_of_cons in H as [H|H]; [done|].
      by apply (IH (Overlay._cacheRegion el e)).
Qed.

Lemma _cacheRegion_batch_stale (els : list Item) (e : Env) (id : Item) (r : Region.t) :
  id ∉ els →
  (id, r) ∈ cache (Dom.batch els Overlay._cacheRegion e) ↔ (id, r) ∈ cache e.
Proof.
  revert e. induction els as [|el els IH]; intros e Hn; [done|].
  apply not_elem_of_cons in Hn as [Hne Hn].
  rewrite batch_cons, IH by done.
  unfold Overlay._cacheRegion. cbn [cache set_cache]. by apply cache_put_other.
Qed.

Lemma refreshCache_fold_keeps (ks : list Item) (e : Env) (id : Item) (r : Region.t) :
  r = region_of (dom e) id →
  (id, r) ∈ cache e →
  (id, r) ∈
    cache (foldl (λ e k, Dom.batch (children (dom e) k) Overlay._cacheRegion e) e ks).
Proof.
  revert e. induction ks as [|k ks IH]; intros e Hr H; [done|]. simpl.
  destruct (_cacheRegion_batch_frame (children (dom e) k) e) as (Hd & _).
  apply IH; [by rewrite Hd|].
  apply _cacheRegion_batch_keeps; [by left|done].
Qed.

(** X21: after [refreshCache] every child of every registered element is in
    the cache with the region it has now; and when no key was in the cache
    twice, that is the only region the cache holds for it. *)
Theorem refreshCache_is_fresh (e : Env) (k el : Item) :
  k ∈ instances e →
  el ∈ children (dom e) k →
  (el, region_of (dom e) el) ∈ cache (Overlay.refreshCache e) ∧
  (NoDup (cache e).*1 →
   ∀ r, (el, r) ∈ cache (Overlay.refreshCache e) → r = region_of (dom e) el).
Proof.
  intros Hk Hel.
  assert ((el, region_of (dom e) el) ∈ cache (Overlay.refreshCache e)) as Hfresh.
  { unfold Overlay.refreshCache.
    assert (∀ ks e', dom e' = dom e → k ∈ ks →
      (el, region_of (dom e) el) ∈
        cache (foldl (λ e k, Dom.batch (children (dom e) k) Overlay._cacheRegion e)
                 e' ks)) as Hfold.
    { induction ks as [|k' ks IH]; intros e' Hd Hin; [by apply elem_of_nil in Hin|].
      simpl.
      destruct (_cacheRegion_batch_frame (children (dom e') k') e') as (Hd' & _).
      apply elem_of_cons in Hin as [<-|Hin].
      - apply refreshCache_fold_keeps; [by rewrite Hd', Hd|].
        replace (region_of (dom e) el) with (region_of (dom e') el) by (by rewrite Hd).
        apply _cacheRegion_batch_fresh. by rewrite Hd.
      - apply IH; [by rewrite Hd'|done]. }
    by apply Hfold. }
  split; [done|]. intros Hnd r Hr.
  exact (cache_entry_unique _ el r _ (refreshCache_NoDup e Hnd) Hr Hfresh).
Qed.

Lemma refreshCache_is_fresh_witness :
  let e := env (run [Select "list" "A"] start) in
  region_of (dom e) "C" = Region.of_xywh 40 40 10 10 ∧
  cache e = [] ∧
  (("C", Region.of_xywh 40 40 10 10) ∈ cache (Overlay.refreshCache e)) ∧
  (NoDup (cache e).*1 →
   ∀ r, ("C", r) ∈ cache (Overlay.refreshCache e) → r = Region.of_xywh 40 40 10 10).
Proof.
  split; [by vm_compute|]. split; [by vm_compute|].
  apply (refreshCache_is_fresh (env (run [Select "list" "A"] start)) "list" "C").
  - vm_compute. left.
  - vm_compute. do 2 right. left.
Defined.

(** X22: [refreshCache] never drops or changes the entry of an element that
    is a child of no registered element: such an entry is in the cache
    afterwards exactly when it was before. *)
Theorem refreshCache_keeps_other_entries (e : Env) (id : Item) (r : Region.t) :
  (∀ k, k ∈ instances e → id ∉ children (dom e) k) →
  (id, r) ∈ cache (Overlay.refreshCache e) ↔ (id, r) ∈ cache e.
Proof.
  intros Hn. unfold Overlay.refreshCache.
  assert (∀ ks e', dom e' = dom e → (∀ k, k ∈ ks → k ∈ instances e) →
    (id, r) ∈ cache (foldl (λ e k, Dom.batch (children (dom e) k) Overlay._cacheRegion e)
                       e' ks) ↔ (id, r) ∈ cache e') as Hfold.
  { induction ks as [|k ks IH]; intros e' Hd Hks; [done|]. simpl.
    destruct (_cacheRegion_batch_frame (children (dom e') k) e') as (Hd' & _).
    rewrite IH.
    - apply _cacheRegion_batch_stale. rewrite Hd. apply Hn, Hks. left.
    - by rewrite Hd'.
    - intros k' Hk'. apply Hks. by right. }
  by apply Hfold.
Qed.

Lemma refreshCache_keeps_other_entries_witness :
  let earlier := run [down 0 0; move 15 15; up false;
                      down 0 0; move 15 15; up false] start in
  let moved := mkDom (λ k, if decide (k = "list") then ["B"; "C"; "D"; "E"] else [])
                     (λ _, Region.of_xywh 500 500 10 10)
                     (classes (dom (env earlier))) None in
  let e := env (step earlier (Host moved)) in
  (("A", Region.of_xywh 0 0 10 10) ∈ cache e) ∧
  (("A", Region.of_xywh 0 0 10 10) ∈ cache (Overlay.refreshCache e) ↔
   ("A", Region.of_xywh 0 0 10 10) ∈ cache e).
Proof.
  split; [vm_compute; left|].
  apply refreshCache_keeps_other_entries.
  intros k Hk. vm_compute in Hk.
  apply list_elem_of_singleton in Hk as ->.
  vm_compute. not_in_list.
Defined.

(** ** Sequences of calls that do not run [deselectAll] *)



